(** * Echo State Network of [reservoir.py]: a shallow embedding

    The class [Reservoir] of [src/reservoir.py] is embedded as a record of its
    attributes together with a store of the arrays that [self.internal] has
    been bound to.  Methods are computations in a state-and-exception monad
    over that pair.  Scalars are IEEE binary64 numbers ([PrimFloat.float]),
    which is what Python's [float] and numpy's [float64] are.

    Three library routines are not re-implemented and are taken as
    parameters of the development: [np.tanh] on one scalar, [np.linalg.inv],
    and the composite [np.max(np.abs(np.linalg.eigvals(.)))].  The contents
    of the file [mackey-glass.npy] and the random draws of the constructor
    are inputs of the functions that use them.

    Conventions.  The integers [n1], [n2], [warmup] and the dimensions are
    natural numbers, so that [range(n)] of a negative [n] and [range(0)]
    coincide.  An inner product is accumulated from the left.  The [print]
    of [update] and the warnings of numpy are not modelled.  The generator
    [mackey_glass] and the method [training_set], which [training_testing]
    does not call, are embedded on their own, with the power [**] and
    [np.split] as parameters.  The generator [sinus] and [plot] are left
    out. *)

From Stdlib Require Import String List Arith ZArith Lia Bool PrimFloat.
Import ListNotations.

#[local] Set Warnings "-inexact-float".

Local Open Scope list_scope.
Local Open Scope nat_scope.

(** ** Exceptions and results *)

(** A Python exception is identified by the name of its class. *)
Definition exn := string.

Definition ValueError : exn := "ValueError"%string.
Definition IndexError : exn := "IndexError"%string.
Definition LinAlgError : exn := "LinAlgError"%string.
(** Raised by the model only where an array of rank three or more would be
    needed; no object built by the constructor reaches it. *)
Definition RankError : exn := "rank above 2"%string.
(** The error name the specification gives to a fit on an empty trace. *)
Definition InsufficientTrainingData : exn := "InsufficientTrainingData"%string.
(** The error name the specification gives to a recurrent matrix of zero
    spectral radius. *)
Definition DegenerateMatrix : exn := "DegenerateMatrix"%string.

Inductive result (A : Type) : Type :=
| Val (a : A)
| Exc (e : exn).
Arguments Val {A} a.
Arguments Exc {A} e.

Definition rbind {A B} (r : result A) (k : A -> result B) : result B :=
  match r with
  | Val a => k a
  | Exc e => Exc e
  end.

(** ** numpy arrays of rank at most two *)

(** [A0 x] is a 0-d array or numpy scalar, [A1 v] has shape [(length v,)],
    [A2 c rows] has shape [(length rows, c)], every row having [c] entries. *)
Inductive ndarray : Type :=
| A0 (x : float)
| A1 (v : list float)
| A2 (ncols : nat) (rows : list (list float)).

Definition amap (f : float -> float) (a : ndarray) : ndarray :=
  match a with
  | A0 x => A0 (f x)
  | A1 v => A1 (map f v)
  | A2 c rows => A2 c (map (map f) rows)
  end.

(** [k * a] for a Python float [k]. *)
Definition scale (k : float) (a : ndarray) : ndarray := amap (PrimFloat.mul k) a.

Fixpoint map2 {A B C} (f : A -> B -> C) (l : list A) (m : list B) : list C :=
  match l, m with
  | x :: l', y :: m' => f x y :: map2 f l' m'
  | _, _ => []
  end.

(** Inner product, accumulated from the left starting at [0.0]. *)
Definition dot (u v : list float) : float :=
  fold_left PrimFloat.add (map2 PrimFloat.mul u v) 0%float.

Definition column (j : nat) (rows : list (list float)) : list float :=
  map (fun r => nth j r 0%float) rows.

(** The columns of a matrix with [c] columns: the rows of its transpose. *)
Definition columns (c : nat) (rows : list (list float)) : list (list float) :=
  map (fun j => column j rows) (seq 0 c).

(** [a.T] and [np.transpose(a)] on an array. *)
Definition transpose (a : ndarray) : ndarray :=
  match a with
  | A2 c rows => A2 (length rows) (columns c rows)
  | _ => a
  end.

(** [a @ b]. *)
Definition matmul (a b : ndarray) : result ndarray :=
  match a, b with
  | A1 u, A1 v =>
      if length u =? length v then Val (A0 (dot u v)) else Exc ValueError
  | A2 c rows, A1 v =>
      if c =? length v then Val (A1 (map (fun r => dot r v) rows))
      else Exc ValueError
  | A1 u, A2 c rows =>
      if length u =? length rows
      then Val (A1 (map (dot u) (columns c rows)))
      else Exc ValueError
  | A2 c1 r1, A2 c2 r2 =>
      if c1 =? length r2
      then Val (A2 c2 (map (fun r => map (dot r) (columns c2 r2)) r1))
      else Exc ValueError
  | _, _ => Exc ValueError
  end.

(** [np.dot(a, b)]: a product by a scalar when one side is 0-d, otherwise the
    matrix product. *)
Definition np_dot (a b : ndarray) : result ndarray :=
  match a, b with
  | A0 x, _ => Val (scale x b)
  | _, A0 y => Val (amap (fun x => PrimFloat.mul x y) a)
  | _, _ => matmul a b
  end.

(** *** Broadcasting *)

Definition rank (a : ndarray) : nat :=
  match a with A0 _ => 0 | A1 _ => 1 | A2 _ _ => 2 end.

(** The shape of [a] seen as a matrix: axes are aligned on the right. *)
Definition shape2 (a : ndarray) : nat * nat :=
  match a with
  | A0 _ => (1, 1)
  | A1 v => (1, length v)
  | A2 c rows => (length rows, c)
  end.

Definition bdim (m n : nat) : result nat :=
  if m =? n then Val m
  else if m =? 1 then Val n
  else if n =? 1 then Val m
  else Exc ValueError.

(** Entry [(i, j)] of [a] stretched along its axes of length one. *)
Definition entry (a : ndarray) (i j : nat) : float :=
  match a with
  | A0 x => x
  | A1 v => nth (if length v =? 1 then 0 else j) v 0%float
  | A2 c rows =>
      nth (if c =? 1 then 0 else j)
          (nth (if length rows =? 1 then 0 else i) rows []) 0%float
  end.

Definition table (f : float -> float -> float) (a b : ndarray) (r c : nat)
  : list (list float) :=
  map (fun i => map (fun j => f (entry a i j) (entry b i j)) (seq 0 c))
      (seq 0 r).

(** An elementwise binary operation of two arrays. *)
Definition broadcast (f : float -> float -> float) (a b : ndarray)
  : result ndarray :=
  let '(ra, ca) := shape2 a in
  let '(rb, cb) := shape2 b in
  rbind (bdim ra rb) (fun r =>
  rbind (bdim ca cb) (fun c =>
  let t := table f a b r c in
  Val (match Nat.max (rank a) (rank b) with
       | 0 => A0 (nth 0 (nth 0 t []) 0%float)
       | 1 => A1 (nth 0 t [])
       | _ => A2 c t
       end))).

(** [a + b] and [a * b] on arrays. *)
Definition add : ndarray -> ndarray -> result ndarray := broadcast PrimFloat.add.
Definition multiply : ndarray -> ndarray -> result ndarray :=
  broadcast PrimFloat.mul.

Definition same_shape (a b : ndarray) : bool :=
  (rank a =? rank b)
  && (fst (shape2 a) =? fst (shape2 b))
  && (snd (shape2 a) =? snd (shape2 b)).

(** The array left in [a] by the in-place product [a *= b]: the product
    must have the shape of [a]. *)
Definition imultiply (a b : ndarray) : result ndarray :=
  rbind (multiply a b) (fun r =>
  if same_shape r a then Val r else Exc ValueError).

(** [a < k] for a Python float [k], the booleans being kept as the [1.0]
    and [0.0] they become in a product. *)
Definition less_than (k : float) (a : ndarray) : ndarray :=
  amap (fun x => if PrimFloat.ltb x k then 1%float else 0%float) a.

(** [np.eye(n)]. *)
Definition eye (n : nat) : ndarray :=
  A2 n (map (fun i => map (fun j => if i =? j then 1%float else 0%float)
                          (seq 0 n))
            (seq 0 n)).

(** [a[i]] for a non-negative index [i]. *)
Definition getitem (a : ndarray) (i : nat) : result ndarray :=
  match a with
  | A0 _ => Exc IndexError
  | A1 v => match nth_error v i with
            | Some x => Val (A0 x)
            | None => Exc IndexError
            end
  | A2 _ rows => match nth_error rows i with
                 | Some r => Val (A1 r)
                 | None => Exc IndexError
                 end
  end.

(** The array left by the in-place assignment [a[0] = x]. *)
Definition setitem0 (a : ndarray) (x : float) : result ndarray :=
  match a with
  | A1 (_ :: v) => Val (A1 (x :: v))
  | A2 c (r :: rows) => Val (A2 c (map (fun _ => x) r :: rows))
  | _ => Exc IndexError
  end.

Definition all_rank (n : nat) (l : list ndarray) : bool :=
  forallb (fun a => rank a =? n) l.

Definition vec_of (a : ndarray) : list float :=
  match a with
  | A0 x => [x]
  | A1 v => v
  | A2 _ _ => []
  end.

(** [np.asarray(l)] for a Python list of arrays: the empty list is the 1-d
    array of shape [(0,)]; vectors of one length are stacked as rows; a
    ragged list is refused. *)
Definition asarray (l : list ndarray) : result ndarray :=
  match l with
  | [] => Val (A1 [])
  | A0 _ :: _ =>
      if all_rank 0 l then Val (A1 (concat (map vec_of l))) else Exc ValueError
  | A1 v :: _ =>
      if all_rank 1 l then
        if forallb (fun a => length (vec_of a) =? length v) l
        then Val (A2 (length v) (map vec_of l))
        else Exc ValueError
      else Exc ValueError
  | A2 _ _ :: _ =>
      if all_rank 2 l then Exc RankError else Exc ValueError
  end.

(** ** The object, the store and the monad *)

(** An address in the store: the position of a cell. *)
Abbreviation loc := nat (only parsing).

(** The attributes of a [Reservoir] instance.  [internal] is a reference:
    the list [reservoir_state] of [training_testing] holds such references,
    and [self.internal[0] = 1] writes through one. *)
Record Reservoir : Type := mkReservoir {
  radius : float;
  leak : float;
  warmup : nat;
  dim_N_x : nat;
  dim_N_y : nat;
  dim_N_u : nat;
  weight_in : ndarray;
  weight_out : ndarray;
  weight : ndarray;
  input : ndarray;
  output : ndarray;
  internal : loc
}.

Record world : Type := mkWorld {
  self : Reservoir;
  heap : list ndarray
}.

(** How a call ends: with a value or with an exception, and in both cases
    with the object and the store as the call left them. *)
Inductive outcome (A : Type) : Type :=
| Ok (a : A) (w : world)
| Raise (e : exn) (w : world).
Arguments Ok {A} a w.
Arguments Raise {A} e w.

Definition M (A : Type) : Type := world -> outcome A.

Definition ret {A} (a : A) : M A := fun w => Ok a w.

Definition bind {A B} (m : M A) (k : A -> M B) : M B :=
  fun w => match m w with
           | Ok a w' => k a w'
           | Raise e w' => Raise e w'
           end.

Definition lift {A} (r : result A) : M A :=
  fun w => match r with
           | Val a => Ok a w
           | Exc e => Raise e w
           end.

Declare Scope monad_scope.
Delimit Scope monad_scope with monad.
Notation "x <- m ;; k" := (bind m (fun x => k))
  (at level 61, m at next level, right associativity) : monad_scope.
Notation "' p <- m ;; k" := (bind m (fun x => let p := x in k))
  (at level 61, p pattern, m at next level, right associativity) : monad_scope.
Notation "m ;; k" := (bind m (fun _ => k))
  (at level 61, right associativity) : monad_scope.
Local Open Scope monad_scope.

Definition get_self : M Reservoir := fun w => Ok (self w) w.

(** Attribute assignment [self.f = v] on the record. *)
Definition with_input (s : Reservoir) (a : ndarray) : Reservoir :=
  mkReservoir (radius s) (leak s) (warmup s) (dim_N_x s) (dim_N_y s)
    (dim_N_u s) (weight_in s) (weight_out s) (weight s) a (output s)
    (internal s).

Definition with_output (s : Reservoir) (a : ndarray) : Reservoir :=
  mkReservoir (radius s) (leak s) (warmup s) (dim_N_x s) (dim_N_y s)
    (dim_N_u s) (weight_in s) (weight_out s) (weight s) (input s) a
    (internal s).

Definition with_weight_out (s : Reservoir) (a : ndarray) : Reservoir :=
  mkReservoir (radius s) (leak s) (warmup s) (dim_N_x s) (dim_N_y s)
    (dim_N_u s) (weight_in s) a (weight s) (input s) (output s)
    (internal s).

Definition with_internal (s : Reservoir) (l : loc) : Reservoir :=
  mkReservoir (radius s) (leak s) (warmup s) (dim_N_x s) (dim_N_y s)
    (dim_N_u s) (weight_in s) (weight_out s) (weight s) (input s) (output s)
    l.

(** The caller's assignments [r.leak = a] and [r.warmup = n]. *)
Definition with_leak (s : Reservoir) (a : float) : Reservoir :=
  mkReservoir (radius s) a (warmup s) (dim_N_x s) (dim_N_y s)
    (dim_N_u s) (weight_in s) (weight_out s) (weight s) (input s) (output s)
    (internal s).

Definition with_warmup (s : Reservoir) (n : nat) : Reservoir :=
  mkReservoir (radius s) (leak s) n (dim_N_x s) (dim_N_y s)
    (dim_N_u s) (weight_in s) (weight_out s) (weight s) (input s) (output s)
    (internal s).

Definition set_input (a : ndarray) : M unit :=
  fun w => Ok tt (mkWorld (with_input (self w) a) (heap w)).

Definition set_output (a : ndarray) : M unit :=
  fun w => Ok tt (mkWorld (with_output (self w) a) (heap w)).

Definition set_weight_out (a : ndarray) : M unit :=
  fun w => Ok tt (mkWorld (with_weight_out (self w) a) (heap w)).

Definition set_internal (l : loc) : M unit :=
  fun w => Ok tt (mkWorld (with_internal (self w) l) (heap w)).

(** A new array is placed at the end of the store. *)
Definition alloc (a : ndarray) : M loc :=
  fun w => Ok (length (heap w)) (mkWorld (self w) (heap w ++ [a])).

(** Reading through a reference.  References are only made by [alloc], so
    the second branch is never taken. *)
Definition load (l : loc) : M ndarray :=
  fun w => match nth_error (heap w) l with
           | Some a => Ok a w
           | None => Raise "dangling reference"%string w
           end.

Fixpoint update_nth {A} (n : nat) (x : A) (l : list A) : list A :=
  match n, l with
  | 0, _ :: t => x :: t
  | S n', h :: t => h :: update_nth n' x t
  | _, [] => []
  end.

(** Overwriting the array at [l]: every holder of [l] sees the new contents. *)
Definition write (l : loc) (a : ndarray) : M unit :=
  fun w => Ok tt (mkWorld (self w) (update_nth l a (heap w))).

(** [a[0] = x] through the reference [l], in place. *)
Definition store_item0 (l : loc) (x : float) : M unit :=
  a <- load l ;;
  a' <- lift (setitem0 a x) ;;
  write l a'.

(** [for i in l: acc = body i acc]. *)
Fixpoint for_each {A} (body : nat -> A -> M A) (l : list nat) (acc : A) : M A :=
  match l with
  | [] => ret acc
  | i :: l' => acc' <- body i acc ;; for_each body l' acc'
  end.

(** [for i in range(n)], the loop variables being threaded as [acc]. *)
Definition for_range {A} (n : nat) (body : nat -> A -> M A) (acc : A) : M A :=
  for_each body (seq 0 n) acc.

(** [load] over a Python list of references. *)
Fixpoint load_all (ls : list loc) : M (list ndarray) :=
  match ls with
  | [] => ret []
  | l :: ls' => a <- load l ;; r <- load_all ls' ;; ret (a :: r)
  end.

(** ** The data source *)

(** A list of scalars as a column, [l[:, np.newaxis]]. *)
Definition column_of (l : list float) : ndarray :=
  A2 1 (map (fun x => [x]) l).

(** [train_test_mackey_glass_npy(N1, N2)] on the loaded series [data], a 1-d
    array: [(data[:N1, np.newaxis], data[N1:N2, np.newaxis])].  For
    non-negative bounds the slice [data[N1:N2]] is the first [N2 - N1]
    entries behind the first [N1], and is empty when [N2 <= N1]. *)
Definition train_test_mackey_glass_npy (data : list float) (N1 N2 : nat)
  : ndarray * ndarray :=
  (column_of (firstn N1 data),
   column_of (firstn (N2 - N1) (skipn N1 data))).

(** ** The class [Reservoir] *)

Section Reservoir.

(** [np.tanh] on one scalar. *)
Variable tanh : float -> float.
(** [np.linalg.inv]. *)
Variable inv : ndarray -> result ndarray.
(** [np.max(np.abs(np.linalg.eigvals(.)))]. *)
Variable max_abs_eigvals : ndarray -> result float.

(** The five arrays drawn by the constructor, in program order. *)
Record draws : Type := mkDraws {
  draw_in : ndarray;      (* uniform(-0.5, 0.5, (dim_N_x, dim_N_u)) *)
  draw_out : ndarray;     (* uniform(-0.5, 0.5, (dim_N_y, dim_N_x)) *)
  draw_weight : ndarray;  (* uniform(-0.5, 0.5, (dim_N_x, dim_N_x)) *)
  draw_mask : ndarray;    (* uniform(0, 1, (dim_N_x, dim_N_x)) *)
  draw_internal : ndarray (* uniform(-1, 1, dim_N_x) *)
}.

(** [Reservoir.__init__].  The integer [0] of [self.input = 0] is kept as
    the 0-d array [A0 0]. *)
Definition __init__ (dim_N_x dim_N_y dim_N_u : nat) (rnd : draws)
  : result world :=
  if negb (dim_N_y =? dim_N_u) then Exc ValueError
  else
    let radius := 1.25%float in
    let leak := 0.5%float in
    let warmup := 100 in
    let weight_in := draw_in rnd in
    let weight_out := draw_out rnd in
    let weight := draw_weight rnd in
    rbind (imultiply weight (less_than 1%float (draw_mask rnd)))
          (fun weight =>
    rbind (max_abs_eigvals weight) (fun rho =>
    let weight := scale (PrimFloat.div radius rho) weight in
    let input := A0 0%float in
    let output := input in
    Val (mkWorld (mkReservoir radius leak warmup dim_N_x dim_N_y dim_N_u
                    weight_in weight_out weight input output 0)
                 [draw_internal rnd]))).

(** [forward_input]: [W_in . u(n)]. *)
Definition forward_input : M ndarray :=
  s <- get_self ;;
  lift (matmul (weight_in s) (input s)).

(** [forward_internal]: [W . x(n-1)]. *)
Definition forward_internal : M ndarray :=
  s <- get_self ;;
  x <- load (internal s) ;;
  lift (matmul (weight s) x).

(** [forward]: [np.tanh(a + b)]. *)
Definition forward : M ndarray :=
  a <- forward_input ;;
  b <- forward_internal ;;
  ab <- lift (add a b) ;;
  ret (amap tanh ab).

(** [forward_out]: [np.dot(W_out, x(n))]. *)
Definition forward_out : M ndarray :=
  s <- get_self ;;
  x <- load (internal s) ;;
  lift (np_dot (weight_out s) x).

(** [update(x, y)]; [x] is the list of references [reservoir_state], read
    when [np.transpose] turns it into an array.  The [print] of the shape
    is not modelled. *)
Definition update (x : list loc) (y : list ndarray) : M ndarray :=
  s <- get_self ;;
  xs <- load_all x ;;
  x <- lift (rbind (asarray xs) (fun a => Val (transpose a))) ;;
  y <- lift (rbind (asarray y) (fun a => Val (transpose a))) ;;
  yx <- lift (matmul y (transpose x)) ;;
  xx <- lift (matmul x (transpose x)) ;;
  g <- lift (add xx (scale 1e-8%float (eye (dim_N_x s)))) ;;
  gi <- lift (inv g) ;;
  new_W_out <- lift (matmul yx gi) ;;
  ret new_W_out.

(** [self.internal = (1 - self.leak) * self.internal + self.leak *
    self.forward()]: the sum is a new array and [self.internal] is bound
    to it. *)
Definition leaky_update : M unit :=
  s <- get_self ;;
  x <- load (internal s) ;;
  let a := scale (1 - leak s)%float x in
  f <- forward ;;
  let b := scale (leak s) f in
  r <- lift (add a b) ;;
  l <- alloc r ;;
  set_internal l.

(** [self.internal[0] = 1  # bias]. *)
Definition bias : M unit :=
  s <- get_self ;;
  store_item0 (internal s) 1%float.

(** Lines 207-212: past the warmup, append the reference [self.internal]
    and the current input to the two lists; then teacher forcing. *)
Definition record_and_force (train : ndarray) (i : nat)
           (acc : list loc * list ndarray) : M (list loc * list ndarray) :=
  s <- get_self ;;
  let acc' :=
    if warmup s <=? i
    then (fst acc ++ [internal s], snd acc ++ [input s])
    else acc in
  u <- lift (getitem train (i + 1)) ;;
  set_input u ;;
  ret acc'.

(** The body of the loop "Warmup and saving" (lines 205-212); the loop
    variables are the two lists [(reservoir_state, input_signal)]. *)
Definition train_body (train : ndarray) (i : nat)
           (acc : list loc * list ndarray) : M (list loc * list ndarray) :=
  leaky_update ;;
  bias ;;
  record_and_force train i acc.

(** Lines 223-228: the prediction, the two appends, and the output fed
    back as the next input. *)
Definition predict_and_feed (test : ndarray) (i : nat)
           (acc : list ndarray * list ndarray)
  : M (list ndarray * list ndarray) :=
  o <- forward_out ;;
  set_output o ;;
  o0 <- lift (getitem o 0) ;;
  ti <- lift (getitem test i) ;;
  ti0 <- lift (getitem ti 0) ;;
  set_input o ;;
  ret (fst acc ++ [o0], snd acc ++ [ti0]).

(** The body of the loop "testing" (lines 221-228); the loop variables are
    the two lists [(result, signal)]. *)
Definition test_body (test : ndarray) (i : nat)
           (acc : list ndarray * list ndarray)
  : M (list ndarray * list ndarray) :=
  leaky_update ;;
  bias ;;
  predict_and_feed test i acc.

(** Lines 200-212 with the loop bound [n]: teacher-forced run of [n] steps
    over the training slice. *)
Definition train_steps (train : ndarray) (n : nat)
  : M (list loc * list ndarray) :=
  t0 <- lift (getitem train 0) ;;
  set_input t0 ;;
  for_range n (train_body train) ([], []).

(** Lines 200-212: the loop runs over [range(n1 - 1)]. *)
Definition train_phase (train : ndarray) (n1 : nat)
  : M (list loc * list ndarray) :=
  train_steps train (n1 - 1).

(** Lines 218-228: closed-loop run over the test slice. *)
Definition test_phase (test : ndarray) (n : nat)
  : M (list ndarray * list ndarray) :=
  t0 <- lift (getitem test 0) ;;
  set_input t0 ;;
  for_range n (test_body test) ([], []).

(** [training_testing(n1, n2)]; returns [(signal, result)]. *)
Definition training_testing (data : list float) (n1 n2 : nat)
  : M (list ndarray * list ndarray) :=
  let '(train, test) := train_test_mackey_glass_npy data n1 n2 in
  '(reservoir_state, input_signal) <- train_phase train n1 ;;
  w <- update reservoir_state input_signal ;;
  set_weight_out w ;;
  '(result, signal) <- test_phase test (n2 - n1) ;;
  ret (signal, result).

End Reservoir.

(** ** Reference instances of the library routines

    The theorems below hold for every [tanh], [inv] and [max_abs_eigvals].
    The instances of this module are used to run the program on concrete
    inputs. *)

Module Ref.

(** A stand-in for the hyperbolic tangent: odd, increasing, bounded by 1. *)
Definition softsign (x : float) : float := (x / (1 + abs x))%float.

(** Gauss-Jordan elimination, without pivoting, on the matrix extended by
    the identity. *)
Fixpoint gauss_jordan (cols : list nat) (m : list (list float))
  : result (list (list float)) :=
  match cols with
  | [] => Val m
  | k :: cols' =>
      let p := nth k m [] in
      let pv := nth k p 0%float in
      if PrimFloat.eqb pv 0 then Exc LinAlgError
      else
        let p' := map (fun a => a / pv)%float p in
        gauss_jordan cols'
          (map2 (fun i r =>
                   if i =? k then p'
                   else map2 (fun a b => a - nth k r 0 * b)%float r p')
                (seq 0 (length m)) m)
  end.

Definition inv (a : ndarray) : result ndarray :=
  match a with
  | A2 n rows =>
      if length rows =? n then
        match eye n with
        | A2 _ id =>
            rbind (gauss_jordan (seq 0 n) (map2 (@app float) rows id))
                  (fun m =>
                     let r := map (skipn n) m in
                     if length r =? n then Val (A2 n r) else Exc LinAlgError)
        | _ => Exc LinAlgError
        end
      else Exc LinAlgError
  | _ => Exc LinAlgError
  end.

(** The largest magnitude on the diagonal: the spectral radius of a
    triangular matrix.  [np.max] refuses an empty array. *)
Definition max_abs_diag (a : ndarray) : result float :=
  match a with
  | A2 _ (r :: rows) =>
      Val (fold_left (fun m x => if PrimFloat.ltb m x then x else m)
             (map2 (fun i r => abs (nth i r 0%float))
                   (seq 1 (length rows)) rows)
             (abs (nth 0 r 0%float)))
  | A2 _ [] => Exc ValueError
  | _ => Exc LinAlgError
  end.

(** [n] samples of the constant series of value [x]. *)
Definition constant_series (x : float) (n : nat) : list float := repeat x n.

(** A reservoir of size [d] with input and output dimension one, as the
    constructor builds it from the draws given below. *)
Definition diag (d : nat) (x y : float) : list (list float) :=
  map (fun i => map (fun j => if i =? j then x else y) (seq 0 d)) (seq 0 d).

Definition some_draws (d : nat) : draws :=
  mkDraws (A2 1 (repeat [0.25%float] d))
          (A2 d [repeat 0.125%float d])
          (A2 d (diag d 0.25%float 0.0625%float))
          (A2 d (diag d 0.5%float 0.75%float))
          (A1 (repeat 0.5%float d)).

(** The instance [Reservoir(d, 1, 1)] built from [some_draws d]. *)
Definition esn (d : nat) : world :=
  mkWorld (mkReservoir 1.25%float 0.5%float 100 d 1 1
             (A2 1 (repeat [0.25%float] d))
             (A2 d [repeat 0.125%float d])
             (A2 d (diag d 1.25%float 0.3125%float))
             (A0 0%float) (A0 0%float) 0)
          [A1 (repeat 0.5%float d)].

(** The same instance once a first input has been presented. *)
Definition primed (d : nat) : world :=
  mkWorld (with_input (self (esn d)) (A1 [0.5%float])) (heap (esn d)).

(** The instance of the scenario of ten units without leak and with two
    warmup steps. *)
Definition scenario : world :=
  mkWorld (with_warmup (with_leak (self (esn 10)) 1%float) 2)
          (heap (esn 10)).

(** A small instance with two warmup steps. *)
Definition small : world :=
  mkWorld (with_warmup (self (esn 3)) 2) (heap (esn 3)).

(** A series that is not constant. *)
Definition series : list float :=
  [0.5; 0.625; 0.75; 0.625; 0.5; 0.375; 0.25; 0.375; 0.5; 0.625;
   0.75; 0.625; 0.5; 0.375; 0.25; 0.375]%float.

(** Draws whose recurrent matrix is nilpotent: all its eigenvalues are
    zero. *)
Definition nilpotent_draws : draws :=
  mkDraws (A2 1 [[0.25%float]; [0.25%float]])
          (A2 2 [[0.125%float; 0.125%float]])
          (A2 2 [[0%float; 0.25%float]; [0%float; 0%float]])
          (A2 2 [[0.5%float; 0.5%float]; [0.5%float; 0.5%float]])
          (A1 [0.5%float; 0.5%float]).

(** A store holding a trace of two states behind the initial one. *)
Definition traced : world :=
  mkWorld (with_internal (self (esn 2)) 2)
          (heap (esn 2) ++ [A1 [1%float; 0.25%float];
                            A1 [1%float; 0.75%float]]).

(** An instance with two input and two output units, as
    [Reservoir(3, 2, 2)] builds it. *)
Definition two_inputs : world :=
  mkWorld (mkReservoir 1.25%float 0.5%float 100 3 2 2
             (A2 2 (repeat [0.25%float; 0.25%float] 3))
             (A2 3 (repeat (repeat 0.125%float 3) 2))
             (A2 3 (diag 3 1.25%float 0.3125%float))
             (A0 0%float) (A0 0%float) 0)
          [A1 (repeat 0.5%float 3)].

(** [x ** e] by repeated multiplication, for [e >= 0]. *)
Definition pow_int (x : float) (e : Z) : float :=
  Nat.iter (Z.to_nat e) (fun p => p * x)%float 1%float.

End Ref.

(** ** Linear algebra on lists, in which the statements are written *)

Definition matrix := list (list float).

Definition vadd (u v : list float) : list float := map2 PrimFloat.add u v.
Definition vscale (k : float) (v : list float) : list float :=
  map (PrimFloat.mul k) v.
(** The product of a matrix, given by its rows, and a vector. *)
Definition mvec (W : matrix) (x : list float) : list float :=
  map (fun r => dot r x) W.
(** The transpose of a matrix with [c] columns. *)
Definition mT (c : nat) (m : matrix) : matrix := columns c m.
(** The product of [m] and [n], the latter with [cn] columns. *)
Definition mmul (m n : matrix) (cn : nat) : matrix :=
  map (fun r => map (dot r) (columns cn n)) m.
Definition madd (m n : matrix) : matrix := map2 vadd m n.
Definition mscale (k : float) (m : matrix) : matrix := map (vscale k) m.
Definition identity (n : nat) : matrix :=
  map (fun i => map (fun j => if i =? j then 1%float else 0%float) (seq 0 n))
      (seq 0 n).

(** The state update as the specification words it:
    [x_new = (1 - alpha) x_prev + alpha tanh(W_in u + W x_prev)]. *)
Definition leaky_integration (tanh : float -> float) (alpha : float)
           (W_in W : matrix) (u x_prev : list float) : list float :=
  vadd (vscale (1 - alpha)%float x_prev)
       (vscale alpha (map tanh (vadd (mvec W_in u) (mvec W x_prev)))).

(** The readout as the specification words it:
    [W_out = (Y X^T) (X X^T + eps I)^-1], for [X] of shape [(d, k)] and [Y]
    with [k] columns, the inverse being the library's. *)
Definition ridge_readout (inv : ndarray -> result ndarray) (eps : float)
           (d k : nat) (X Y : matrix) : result ndarray :=
  rbind (inv (A2 d (madd (mmul X (mT k X) d) (mscale eps (identity d)))))
        (fun G => matmul (A2 d (mmul Y (mT k X) d)) G).

(** ** Shapes *)

Definition has_shape (r c : nat) (a : ndarray) : bool :=
  match a with
  | A2 c' rows =>
      (c' =? c) && (length rows =? r)
      && forallb (fun row => length row =? c) rows
  | _ => false
  end.

Definition is_vector (n : nat) (a : ndarray) : bool :=
  match a with
  | A1 v => length v =? n
  | _ => false
  end.

Definition rows_of (a : ndarray) : matrix :=
  match a with
  | A2 _ rows => rows
  | _ => []
  end.

(** The array [self.internal] refers to. *)
Definition current (w : world) : ndarray :=
  nth (internal (self w)) (heap w) (A1 []).

(** The internal state that one step leaves: the leaky integration of the
    current state and input, with its first entry overwritten by [1]. *)
Definition next_state (tanh : float -> float) (w : world) : list float :=
  let s := self w in
  1%float :: tl (leaky_integration tanh (leak s) (rows_of (weight_in s))
                   (rows_of (weight s)) (vec_of (input s))
                   (vec_of (current w))).

(** The shapes the constructor gives to an instance with one input unit:
    [W_in] is [(dim_N_x, 1)], [W] is [(dim_N_x, dim_N_x)], the internal state
    is a vector of [dim_N_x >= 1] entries. *)
Definition shapes_ok (w : world) : bool :=
  let s := self w in
  (1 <=? dim_N_x s)
  && has_shape (dim_N_x s) 1 (weight_in s)
  && has_shape (dim_N_x s) (dim_N_x s) (weight s)
  && (internal s <? length (heap w))
  && is_vector (dim_N_x s) (current w).

(** The input is one scalar, as a vector: a row of the series. *)
Definition input_ok (w : world) : bool := is_vector 1 (input (self w)).

(** The readout has one output unit: [W_out] is [(1, dim_N_x)]. *)
Definition readout_ok (w : world) : bool :=
  has_shape 1 (dim_N_x (self w)) (weight_out (self w)).

(** The shapes of the random draws of the constructor. *)
Definition draws_ok (dx dy du : nat) (rnd : draws) : bool :=
  has_shape dx du (draw_in rnd)
  && has_shape dy dx (draw_out rnd)
  && has_shape dx dx (draw_weight rnd)
  && has_shape dx dx (draw_mask rnd)
  && is_vector dx (draw_internal rnd).

(** ** Predicates used in the proofs *)

(** [m] does not assign [self.weight_out], whether it ends normally or with
    an exception. *)
Definition keeps_readout {A} (m : M A) : Prop :=
  forall w, match m w with
            | Ok _ w' | Raise _ w' => weight_out (self w') = weight_out (self w)
            end.

(** The state of the training loop after [k] iterations started in [w0]:
    the store has grown by [k] cells and the references recorded so far are
    the cells allocated at the iterations [warmup, ..., k - 1]. *)
Definition train_invariant (w0 : world) (k : nat)
           (acc : list loc * list ndarray) (v : world) : Prop :=
  warmup (self v) = warmup (self w0) /\
  (exists ext, heap v = heap w0 ++ ext /\ length ext = k) /\
  fst acc = map (fun j => length (heap w0) + j)
                (seq (warmup (self w0)) (k - warmup (self w0))) /\
  length (snd acc) = k - warmup (self w0).

(** ** The generator [mackey_glass] *)

Definition ZeroDivisionError : exn := "ZeroDivisionError"%string.

(** The position that a Python integer [k] indexes in a sequence of [n]
    items: a negative index counts from the end. *)
Definition py_index (n : nat) (k : Z) : result nat :=
  if (k <? - Z.of_nat n)%Z then Exc IndexError
  else if (k <? 0)%Z then Val (Z.to_nat (Z.of_nat n + k))
  else if (k <? Z.of_nat n)%Z then Val (Z.to_nat k)
  else Exc IndexError.

(** [y[k]] on a 1-d array. *)
Definition item (y : list float) (k : Z) : result float :=
  rbind (py_index (length y) k) (fun j => Val (nth j y 0%float)).

(** The array left by [y[k] = v]. *)
Definition setitem (y : list float) (k : Z) (v : float)
  : result (list float) :=
  rbind (py_index (length y) k) (fun j => Val (update_nth j v y)).

(** [for i in l: acc = body i acc] for a body without access to an
    instance. *)
Fixpoint for_result {A} (body : nat -> A -> result A) (l : list nat) (acc : A)
  : result A :=
  match l with
  | [] => Val acc
  | i :: l' => rbind (body i acc) (for_result body l')
  end.

Section MackeyGlass.

(** [x ** e] for a [float64] [x] and a Python integer [e]. *)
Variable pow : float -> Z -> float.

(** Line 38:
    [y[i+1] = c * y[i] + ((a * y[i - d]) / (b + (y[i - d] ** e)))]. *)
Definition mackey_glass_step (a b c : float) (d e : Z) (i : nat)
           (y : list float) : result (list float) :=
  rbind (item y (Z.of_nat i)) (fun yi =>
  rbind (item y (Z.of_nat i - d)) (fun yd =>
  rbind (item y (Z.of_nat i - d)) (fun yd' =>
  setitem y (Z.of_nat i + 1) (c * yi + (a * yd) / (b + pow yd' e))%float))).

(** [mackey_glass(N, a, b, c, d, e, initial)] for a float [initial]: the
    array is [np.full(N, initial)]; the two [reshape] calls and [x] have no
    effect on what is returned. *)
Definition mackey_glass (N : nat) (a b c : float) (d e : Z) (initial : float)
  : result (list float) :=
  let y := repeat initial N in
  for_result (mackey_glass_step a b c d e) (seq 0 (length y - 1)) y.

(** Line 102, the series of [training_set(N)]. *)
Definition training_series (N : nat) : result (list float) :=
  mackey_glass N 0.2%float 1%float 0.9%float 23 10 0.1%float.

(** [np.array(np.split(time_serie, q))], for the quotient [q = N / dim]. *)
Variable split_sections : list float -> nat -> nat -> result ndarray.

(** [training_set(N)] on an instance with [dim_N_u = dim]: the series is
    generated first, then the true division [N / dim] of two Python
    integers is taken. *)
Definition training_set (dim : nat) (N : nat) : result ndarray :=
  rbind (training_series N) (fun time_serie =>
  if dim =? 0 then Exc ZeroDivisionError
  else split_sections time_serie N dim).

End MackeyGlass.


(** ** More predicates used in the proofs *)

(** The attributes that only the constructor or the caller assign. *)
Definition config (s : Reservoir)
  : float * float * nat * nat * nat * nat * ndarray * ndarray :=
  (radius s, leak s, warmup s, dim_N_x s, dim_N_y s, dim_N_u s,
   weight_in s, weight s).

(** [m] leaves [config] alone, whether it ends normally or with an
    exception. *)
Definition keeps_config {A} (m : M A) : Prop :=
  forall w, match m w with
            | Ok _ w' | Raise _ w' => config (self w') = config (self w)
            end.

(** [m] changes neither the object nor the store, however it ends. *)
Definition pure_call {A} (m : M A) : Prop :=
  forall w, match m w with
            | Ok _ w' | Raise _ w' => w' = w
            end.

(** A 2-d array with [d] rows and the header of [d] columns. *)
Definition is_square (d : nat) (a : ndarray) : bool :=
  match a with
  | A2 c rows => (c =? d) && (length rows =? d)
  | _ => false
  end.

(** * Proofs *)

(** ** Lists *)

Lemma length_map2 {A B C} (f : A -> B -> C) (l : list A) (m : list B) :
  length (map2 f l m) = Nat.min (length l) (length m).
Proof.
  revert m; induction l as [|x l IH]; intros [|y m]; simpl; auto.
Qed.

Lemma map_seq_shift {A} (g : nat -> A) (n : nat) :
  map g (seq 1 n) = map (fun i => g (S i)) (seq 0 n).
Proof. rewrite <- seq_shift, map_map. reflexivity. Qed.

Lemma map2_as_seq {A B C} (f : A -> B -> C) (da : A) (db : B)
      (l : list A) (m : list B) :
  length l = length m ->
  map (fun i => f (nth i l da) (nth i m db)) (seq 0 (length l)) = map2 f l m.
Proof.
  revert m; induction l as [|x l IH]; intros [|y m] H; simpl in *;
    try discriminate; auto.
  f_equal. rewrite map_seq_shift. apply IH. lia.
Qed.

Lemma update_nth_last {A} (l : list A) (x y : A) :
  update_nth (length l) y (l ++ [x]) = l ++ [y].
Proof. induction l as [|h l IH]; simpl; [reflexivity | now rewrite IH]. Qed.

Lemma nth_error_last {A} (l : list A) (x : A) :
  nth_error (l ++ [x]) (length l) = Some x.
Proof. rewrite nth_error_app2, Nat.sub_diag by lia. reflexivity. Qed.

Lemma nth_last {A} (l : list A) (x d : A) : nth (length l) (l ++ [x]) d = x.
Proof. rewrite app_nth2, Nat.sub_diag by lia. reflexivity. Qed.

(** ** Arrays *)

Lemma stretch_index (n j : nat) :
  j < n -> (if n =? 1 then 0 else j) = j.
Proof. intros H. destruct (Nat.eqb_spec n 1); lia. Qed.

Lemma broadcast_vectors (f : float -> float -> float) (u v : list float) :
  length u = length v ->
  broadcast f (A1 u) (A1 v) = Val (A1 (map2 f u v)).
Proof.
  intros H. unfold broadcast, bdim, table. simpl.
  rewrite <- H, Nat.eqb_refl. simpl. f_equal. f_equal.
  rewrite <- (map2_as_seq f 0%float 0%float u v H).
  apply map_ext_in. intros j Hj. apply in_seq in Hj.
  rewrite !stretch_index by lia. reflexivity.
Qed.

Lemma add_vectors (u v : list float) :
  length u = length v -> add (A1 u) (A1 v) = Val (A1 (vadd u v)).
Proof. apply broadcast_vectors. Qed.

Lemma broadcast_matrices (f : float -> float -> float) (c : nat) (m n : matrix) :
  length m = length n ->
  Forall (fun r => length r = c) m ->
  Forall (fun r => length r = c) n ->
  broadcast f (A2 c m) (A2 c n) = Val (A2 c (map2 (map2 f) m n)).
Proof.
  intros H Hm Hn. unfold broadcast, bdim, table. simpl.
  rewrite <- H, !Nat.eqb_refl. simpl. f_equal. f_equal.
  rewrite <- (map2_as_seq (map2 f) [] [] m n H).
  apply map_ext_in. intros i Hi. apply in_seq in Hi.
  rewrite !stretch_index by lia.
  assert (Hi1 : length (nth i m []) = c).
  { rewrite Forall_forall in Hm. apply Hm, nth_In. lia. }
  assert (Hi2 : length (nth i n []) = c).
  { rewrite Forall_forall in Hn. apply Hn, nth_In. lia. }
  rewrite <- (map2_as_seq f 0%float 0%float (nth i m []) (nth i n []))
    by congruence.
  rewrite Hi1. apply map_ext_in. intros j Hj. apply in_seq in Hj.
  rewrite !stretch_index by lia. reflexivity.
Qed.

Lemma bdim_1_l (n : nat) : bdim 1 n = Val n.
Proof.
  unfold bdim. destruct (Nat.eqb_spec 1 n); [congruence | reflexivity].
Qed.

Lemma broadcast_scalar_matrix (f : float -> float -> float) (x : float)
      (c : nat) (n : matrix) :
  broadcast f (A0 x) (A2 c n) =
    Val (A2 c (table f (A0 x) (A2 c n) (length n) c)).
Proof. unfold broadcast. simpl. rewrite !bdim_1_l. reflexivity. Qed.

(** ** The monad *)

Lemma bind_Ok {A B} (m : M A) (k : A -> M B) (w w' : world) (a : A) :
  m w = Ok a w' -> bind m k w = k a w'.
Proof. unfold bind. intros ->. reflexivity. Qed.

Lemma bind_inv {A B} (m : M A) (k : A -> M B) (w w2 : world) (b : B) :
  bind m k w = Ok b w2 ->
  exists a w1, m w = Ok a w1 /\ k a w1 = Ok b w2.
Proof.
  unfold bind. destruct (m w) as [a w1|e w1]; [eauto | discriminate].
Qed.

Lemma lift_inv {A} (r : result A) (w w' : world) (a : A) :
  lift r w = Ok a w' -> r = Val a /\ w' = w.
Proof. unfold lift. destruct r; intros H; inversion H; auto. Qed.

Lemma load_inv (l : loc) (w w' : world) (a : ndarray) :
  load l w = Ok a w' -> nth_error (heap w) l = Some a /\ w' = w.
Proof.
  unfold load. destruct (nth_error (heap w) l); intros H; inversion H; auto.
Qed.

Lemma ret_inv {A} (a b : A) (w w' : world) :
  ret a w = Ok b w' -> b = a /\ w' = w.
Proof. unfold ret. intros H; inversion H; auto. Qed.

Lemma get_self_inv (w w' : world) (s : Reservoir) :
  get_self w = Ok s w' -> s = self w /\ w' = w.
Proof. unfold get_self. intros H; inversion H; auto. Qed.

Lemma alloc_inv (a : ndarray) (w w' : world) (l : loc) :
  alloc a w = Ok l w' ->
  l = length (heap w) /\ w' = mkWorld (self w) (heap w ++ [a]).
Proof. unfold alloc. intros H; inversion H; auto. Qed.

Lemma set_input_inv (a : ndarray) (w w' : world) (u : unit) :
  set_input a w = Ok u w' -> w' = mkWorld (with_input (self w) a) (heap w).
Proof. unfold set_input. intros H; inversion H; auto. Qed.

Lemma set_output_inv (a : ndarray) (w w' : world) (u : unit) :
  set_output a w = Ok u w' -> w' = mkWorld (with_output (self w) a) (heap w).
Proof. unfold set_output. intros H; inversion H; auto. Qed.

Lemma set_weight_out_inv (a : ndarray) (w w' : world) (u : unit) :
  set_weight_out a w = Ok u w' ->
  w' = mkWorld (with_weight_out (self w) a) (heap w).
Proof. unfold set_weight_out. intros H; inversion H; auto. Qed.

Lemma set_internal_inv (l : loc) (w w' : world) (u : unit) :
  set_internal l w = Ok u w' ->
  w' = mkWorld (with_internal (self w) l) (heap w).
Proof. unfold set_internal. intros H; inversion H; auto. Qed.

Lemma write_inv (l : loc) (a : ndarray) (w w' : world) (u : unit) :
  write l a w = Ok u w' -> w' = mkWorld (self w) (update_nth l a (heap w)).
Proof. unfold write. intros H; inversion H; auto. Qed.

(** Invert a successful run, one primitive at a time. *)
Ltac minv1 :=
  match goal with
  | H : bind _ _ _ = Ok _ _ |- _ =>
      apply bind_inv in H; destruct H as (? & ? & ? & H)
  | H : lift _ _ = Ok _ _ |- _ =>
      apply lift_inv in H; destruct H as [H ?]; subst
  | H : load _ _ = Ok _ _ |- _ =>
      apply load_inv in H; destruct H as [H ?]; subst
  | H : get_self _ = Ok _ _ |- _ =>
      apply get_self_inv in H; destruct H as [? ?]; subst
  | H : ret _ _ = Ok _ _ |- _ =>
      apply ret_inv in H; destruct H as [? ?]; subst
  | H : alloc _ _ = Ok _ _ |- _ =>
      apply alloc_inv in H; destruct H as [? ?]; subst
  | H : set_input _ _ = Ok _ _ |- _ => apply set_input_inv in H; subst
  | H : set_output _ _ = Ok _ _ |- _ => apply set_output_inv in H; subst
  | H : set_weight_out _ _ = Ok _ _ |- _ =>
      apply set_weight_out_inv in H; subst
  | H : set_internal _ _ = Ok _ _ |- _ => apply set_internal_inv in H; subst
  | H : write _ _ _ = Ok _ _ |- _ => apply write_inv in H; subst
  end.
Ltac minv := repeat minv1.

Lemma bind_assoc {A B C} (m : M A) (f : A -> M B) (g : B -> M C) (w : world) :
  bind (bind m f) g w = bind m (fun x => bind (f x) g) w.
Proof. unfold bind. destruct (m w); reflexivity. Qed.

(** ** Loops *)

Lemma for_each_app {A} (body : nat -> A -> M A) (l1 l2 : list nat) (acc : A)
      (w : world) :
  for_each body (l1 ++ l2) acc w =
  bind (for_each body l1 acc) (for_each body l2) w.
Proof.
  revert acc w. induction l1 as [|i l1 IH]; intros acc w; simpl.
  - reflexivity.
  - rewrite bind_assoc. unfold bind at 1.
    unfold bind at 1. destruct (body i acc w); [apply IH | reflexivity].
Qed.

Lemma for_range_S {A} (body : nat -> A -> M A) (n : nat) (acc : A) (w : world) :
  for_range (S n) body acc w = bind (for_range n body acc) (body n) w.
Proof.
  unfold for_range. rewrite seq_S, for_each_app. simpl.
  unfold bind. destruct (for_each body (seq 0 n) acc w); [|reflexivity].
  destruct (body n a w0); reflexivity.
Qed.

(** A loop that ends normally splits at any earlier iteration. *)
Lemma for_range_split {A} (body : nat -> A -> M A) (n k : nat) (acc acc' : A)
      (w w' : world) :
  for_range n body acc w = Ok acc' w' -> k <= n ->
  exists acc_k w_k,
    for_range k body acc w = Ok acc_k w_k /\
    for_each body (seq k (n - k)) acc_k w_k = Ok acc' w'.
Proof.
  intros H Hk. replace n with (k + (n - k)) in H by lia.
  unfold for_range in *. rewrite seq_app, for_each_app in H.
  apply bind_inv in H. destruct H as (a & w1 & H1 & H2).
  exists a, w1. split; [assumption|].
  replace (k + (n - k) - k) with (n - k) in H2 by lia. exact H2.
Qed.

(** The invariant rule for a loop over any list that ends normally; [I k]
    holds after [k] iterations. *)
Lemma for_each_invariant {A} (I : nat -> A -> world -> Prop)
      (body : nat -> A -> M A) (l : list nat) (acc acc' : A) (w w' : world) :
  I 0 acc w ->
  (forall k i a v a' v',
      nth_error l k = Some i -> I k a v -> body i a v = Ok a' v' ->
      I (S k) a' v') ->
  for_each body l acc w = Ok acc' w' ->
  I (length l) acc' w'.
Proof.
  intros H0. revert acc' w'.
  induction l as [|i l IH] using rev_ind; intros acc' w' Hstep H.
  - simpl in H. apply ret_inv in H. destruct H; subst; assumption.
  - rewrite for_each_app in H. apply bind_inv in H.
    destruct H as (a & w1 & H1 & H2). simpl in H2.
    apply bind_inv in H2. destruct H2 as (a2 & w2 & H2 & H3).
    apply ret_inv in H3. destruct H3; subst.
    rewrite length_app. simpl. rewrite Nat.add_1_r.
    apply (Hstep (length l) i a w1); auto.
    + rewrite nth_error_app2, Nat.sub_diag by lia. reflexivity.
    + apply IH; auto. intros k j a0 v a' v' Hk. apply Hstep.
      rewrite nth_error_app1; auto. apply nth_error_Some. congruence.
Qed.

(** The invariant rule for a loop that ends normally. *)
Lemma for_range_invariant {A} (I : nat -> A -> world -> Prop)
      (body : nat -> A -> M A) (n : nat) (acc acc' : A) (w w' : world) :
  I 0 acc w ->
  (forall k a v a' v',
      k < n -> I k a v -> body k a v = Ok a' v' -> I (S k) a' v') ->
  for_range n body acc w = Ok acc' w' ->
  I n acc' w'.
Proof.
  intros H0 Hstep. revert acc' w'.
  induction n as [|n IH]; intros acc' w' H.
  - unfold for_range in H. simpl in H. apply ret_inv in H.
    destruct H; subst; assumption.
  - rewrite for_range_S in H. apply bind_inv in H.
    destruct H as (a & w1 & H1 & H2).
    apply (Hstep n a w1); [lia | | assumption].
    apply IH; [|assumption]. intros; eapply Hstep; eauto.
Qed.

(** The same rule for a loop whose body cannot fail under the invariant. *)
Lemma for_range_progress {A} (I : nat -> A -> world -> Prop)
      (body : nat -> A -> M A) (n : nat) (acc : A) (w : world) :
  I 0 acc w ->
  (forall k a v,
      k < n -> I k a v -> exists a' v', body k a v = Ok a' v' /\ I (S k) a' v') ->
  exists acc' w', for_range n body acc w = Ok acc' w' /\ I n acc' w'.
Proof.
  intros H0 Hstep. induction n as [|n IH].
  - exists acc, w. split; [reflexivity | assumption].
  - destruct IH as (a & w1 & H1 & HI); [intros; apply Hstep; auto|].
    destruct (Hstep n a w1) as (a' & w2 & H2 & HI'); [lia | assumption |].
    exists a', w2. split; [|assumption].
    rewrite for_range_S. rewrite (bind_Ok _ _ _ _ _ H1). assumption.
Qed.

Section Steps.

Variable tanh : float -> float.
Variable inv : ndarray -> result ndarray.
Variable max_abs_eigvals : ndarray -> result float.

Lemma forward_inv (w w' : world) (f : ndarray) :
  forward tanh w = Ok f w' ->
  w' = w /\
  exists a b x ab,
    matmul (weight_in (self w)) (input (self w)) = Val a /\
    nth_error (heap w) (internal (self w)) = Some x /\
    matmul (weight (self w)) x = Val b /\
    add a b = Val ab /\ f = amap tanh ab.
Proof.
  unfold forward, forward_input, forward_internal. intros H.
  minv. split; [reflexivity|]. eauto 10.
Qed.

Lemma leaky_update_inv (w w' : world) :
  leaky_update tanh w = Ok tt w' ->
  exists x f r,
    nth_error (heap w) (internal (self w)) = Some x /\
    forward tanh w = Ok f w /\
    add (scale (1 - leak (self w)) x) (scale (leak (self w)) f) = Val r /\
    w' = mkWorld (with_internal (self w) (length (heap w))) (heap w ++ [r]).
Proof.
  unfold leaky_update. intros H. minv.
  match goal with
  | E : forward _ _ = Ok _ _ |- _ =>
      destruct (forward_inv _ _ _ E) as [-> _]; minv; simpl; eauto 10
  end.
Qed.

(** One step, [leaky_update ;; bias]: the new state is a fresh array at
    the end of the store, the rest of the store is as before. *)
Lemma step_inv (w w' : world) :
  (leaky_update tanh ;; bias) w = Ok tt w' ->
  exists x f r a,
    nth_error (heap w) (internal (self w)) = Some x /\
    forward tanh w = Ok f w /\
    add (scale (1 - leak (self w)) x) (scale (leak (self w)) f) = Val r /\
    setitem0 r 1 = Val a /\
    w' = mkWorld (with_internal (self w) (length (heap w))) (heap w ++ [a]).
Proof.
  intros H. apply bind_inv in H. destruct H as ([] & w1 & H1 & H).
  apply leaky_update_inv in H1. destruct H1 as (x & f & r & Hx & Hf & Hr & ->).
  unfold bias, store_item0 in H. minv. simpl in *.
  match goal with
  | E : nth_error (_ ++ [_]) (length _) = Some _ |- _ =>
      rewrite nth_error_last in E; inversion E; subst; clear E
  end.
  rewrite update_nth_last.
  do 4 eexists. repeat split; eauto.
Qed.

Lemma step_bind {A} (k : M A) (w : world) :
  (leaky_update tanh ;; bias ;; k) w =
  bind (leaky_update tanh ;; bias) (fun _ => k) w.
Proof. symmetry. apply bind_assoc. Qed.

Lemma record_and_force_inv (train : ndarray) (i : nat)
      (acc acc' : list loc * list ndarray) (w w' : world) :
  record_and_force train i acc w = Ok acc' w' ->
  exists u,
    getitem train (i + 1) = Val u /\
    w' = mkWorld (with_input (self w) u) (heap w) /\
    acc' = (if warmup (self w) <=? i
            then (fst acc ++ [internal (self w)], snd acc ++ [input (self w)])
            else acc).
Proof. unfold record_and_force. intros H. minv. eauto. Qed.

Lemma predict_and_feed_inv (test : ndarray) (i : nat)
      (acc acc' : list ndarray * list ndarray) (w w' : world) :
  predict_and_feed test i acc w = Ok acc' w' ->
  exists x o o0 ti ti0,
    nth_error (heap w) (internal (self w)) = Some x /\
    np_dot (weight_out (self w)) x = Val o /\
    getitem o 0 = Val o0 /\
    getitem test i = Val ti /\
    getitem ti 0 = Val ti0 /\
    w' = mkWorld (with_input (with_output (self w) o) o) (heap w) /\
    acc' = (fst acc ++ [o0], snd acc ++ [ti0]).
Proof.
  unfold predict_and_feed, forward_out. intros H. minv. simpl. eauto 15.
Qed.

Lemma train_body_inv (train : ndarray) (i : nat)
      (acc acc' : list loc * list ndarray) (w w' : world) :
  train_body tanh train i acc w = Ok acc' w' ->
  exists w1,
    (leaky_update tanh ;; bias) w = Ok tt w1 /\
    record_and_force train i acc w1 = Ok acc' w'.
Proof.
  unfold train_body. rewrite step_bind. intros H.
  apply bind_inv in H. destruct H as ([] & w1 & H1 & H). eauto.
Qed.

Lemma test_body_inv (test : ndarray) (i : nat)
      (acc acc' : list ndarray * list ndarray) (w w' : world) :
  test_body tanh test i acc w = Ok acc' w' ->
  exists w1,
    (leaky_update tanh ;; bias) w = Ok tt w1 /\
    predict_and_feed test i acc w1 = Ok acc' w'.
Proof.
  unfold test_body. rewrite step_bind. intros H.
  apply bind_inv in H. destruct H as ([] & w1 & H1 & H). eauto.
Qed.

(** ** Well-shaped instances *)

Lemma shapes_ok_inv (w : world) :
  shapes_ok w = true ->
  exists Win W x,
    weight_in (self w) = A2 1 Win /\
    weight (self w) = A2 (dim_N_x (self w)) W /\
    nth_error (heap w) (internal (self w)) = Some (A1 x) /\
    current w = A1 x /\
    length Win = dim_N_x (self w) /\
    length W = dim_N_x (self w) /\
    length x = dim_N_x (self w) /\
    1 <= dim_N_x (self w).
Proof.
  unfold shapes_ok, current. intros H.
  repeat (apply andb_prop in H; destruct H as [H ?]).
  destruct (weight_in (self w)) as [|?|c Win]; try discriminate.
  destruct (weight (self w)) as [|?|c' W]; try discriminate.
  simpl in *.
  repeat match goal with
         | E : _ && _ = true |- _ => apply andb_prop in E; destruct E
         | E : (_ =? _) = true |- _ => apply Nat.eqb_eq in E
         | E : (_ <=? _) = true |- _ => apply Nat.leb_le in E
         | E : (_ <? _) = true |- _ => apply Nat.ltb_lt in E
         end.
  destruct (nth (internal (self w)) (heap w) (A1 [])) as [|x|] eqn:Hx;
    try discriminate.
  subst. exists Win, W, x. repeat split; auto.
  - rewrite <- Hx. apply nth_error_nth'. assumption.
  - match goal with
    | E : is_vector _ _ = true |- _ => apply Nat.eqb_eq in E; exact E
    end.
  - destruct (dim_N_x (self w)); [discriminate | lia].
Qed.

Lemma input_ok_inv (w : world) :
  input_ok w = true -> exists u, input (self w) = A1 [u].
Proof.
  unfold input_ok. destruct (input (self w)) as [|[|u [|]]|]; simpl;
    try discriminate. eauto.
Qed.

Lemma length_leaky_integration (alpha : float) (Win W : matrix)
      (u x : list float) (d : nat) :
  length Win = d -> length W = d -> length x = d ->
  length (leaky_integration tanh alpha Win W u x) = d.
Proof.
  intros H1 H2 H3. unfold leaky_integration, vadd, vscale, mvec.
  repeat (rewrite ?length_map2, ?length_map). lia.
Qed.

(** One step of a well-shaped instance cannot fail, and leaves
    [next_state] in a fresh cell. *)
Lemma step_ok (w : world) :
  shapes_ok w = true -> input_ok w = true ->
  (leaky_update tanh ;; bias) w =
  Ok tt (mkWorld (with_internal (self w) (length (heap w)))
                 (heap w ++ [A1 (next_state tanh w)])).
Proof.
  intros Hs Hi.
  destruct (shapes_ok_inv _ Hs) as (Win & W & x & HWin & HW & Hx & Hc & L1 & L2 & L3 & Hd).
  destruct (input_ok_inv _ Hi) as (u & Hu).
  unfold next_state. rewrite HWin, HW, Hu, Hc. simpl.
  pose proof (length_leaky_integration (leak (self w)) Win W [u] x _ L1 L2 L3) as HL.
  unfold leaky_update, forward, forward_input, forward_internal, bias,
    store_item0.
  unfold bind, get_self, load, lift, alloc, set_internal, write, ret. simpl.
  rewrite Hx. simpl. rewrite HWin, Hu. simpl. rewrite Hx, HW. simpl.
  rewrite <- L3, Nat.eqb_refl.
  rewrite add_vectors by (rewrite !length_map; lia). simpl.
  rewrite add_vectors
    by (unfold vadd; rewrite !length_map, length_map2, !length_map; lia).
  simpl. rewrite nth_error_last.
  fold (mvec Win [u]) (mvec W x).
  fold (vscale (1 - leak (self w)) x).
  change (map (PrimFloat.mul (leak (self w)))
              (map tanh (vadd (mvec Win [u]) (mvec W x))))
    with (vscale (leak (self w)) (map tanh (vadd (mvec Win [u]) (mvec W x)))).
  fold (leaky_integration tanh (leak (self w)) Win W [u] x).
  destruct (leaky_integration tanh (leak (self w)) Win W [u] x) as [|y t];
    [simpl in HL; lia|].
  simpl. rewrite update_nth_last. reflexivity.
Qed.

End Steps.

Section Training.

Variable tanh : float -> float.
Variable inv : ndarray -> result ndarray.
Variable max_abs_eigvals : ndarray -> result float.

(** ** What one iteration does to the object and the store *)

Lemma step_frame (w w1 : world) :
  (leaky_update tanh ;; bias) w = Ok tt w1 ->
  exists r a,
    setitem0 r 1 = Val a /\
    w1 = mkWorld (with_internal (self w) (length (heap w))) (heap w ++ [a]).
Proof.
  intros H. apply step_inv in H.
  destruct H as (x & f & r & a & _ & _ & _ & Ha & ->). eauto.
Qed.

Lemma train_body_frame (train : ndarray) (i : nat)
      (acc acc' : list loc * list ndarray) (w w' : world) :
  train_body tanh train i acc w = Ok acc' w' ->
  exists r a u,
    setitem0 r 1 = Val a /\
    getitem train (i + 1) = Val u /\
    w' = mkWorld (with_input (with_internal (self w) (length (heap w))) u)
                 (heap w ++ [a]) /\
    acc' = (if warmup (self w) <=? i
            then (fst acc ++ [length (heap w)], snd acc ++ [input (self w)])
            else acc).
Proof.
  intros H. apply train_body_inv in H. destruct H as (w1 & H1 & H2).
  apply step_frame in H1. destruct H1 as (r & a & Ha & ->).
  apply record_and_force_inv in H2. destruct H2 as (u & Hu & -> & ->).
  simpl. eauto 10.
Qed.

Lemma test_body_frame (test : ndarray) (i : nat)
      (acc acc' : list ndarray * list ndarray) (w w' : world) :
  test_body tanh test i acc w = Ok acc' w' ->
  exists r a o o0 ti ti0,
    setitem0 r 1 = Val a /\
    np_dot (weight_out (self w)) a = Val o /\
    getitem o 0 = Val o0 /\
    getitem test i = Val ti /\
    getitem ti 0 = Val ti0 /\
    w' = mkWorld (with_input
                    (with_output
                       (with_internal (self w) (length (heap w))) o) o)
                 (heap w ++ [a]) /\
    acc' = (fst acc ++ [o0], snd acc ++ [ti0]).
Proof.
  intros H. apply test_body_inv in H. destruct H as (w1 & H1 & H2).
  apply step_frame in H1. destruct H1 as (r & a & Ha & ->).
  apply predict_and_feed_inv in H2.
  destruct H2 as (x & o & o0 & ti & ti0 & Hx & Ho & Ho0 & Hti & Hti0 & -> & ->).
  simpl in *. rewrite nth_error_last in Hx. inversion Hx; subst.
  exists r, x, o, o0, ti, ti0. auto 10.
Qed.

(** ** The training loop *)

Lemma train_invariant_step (train : ndarray) (w0 : world) (k : nat)
      (a a' : list loc * list ndarray) (v v' : world) :
  train_invariant w0 k a v ->
  train_body tanh train k a v = Ok a' v' ->
  train_invariant w0 (S k) a' v'.
Proof.
  intros (Hw & (ext & Hh & He) & Hf & Hs) H.
  apply train_body_frame in H.
  destruct H as (r & c & u & _ & _ & -> & ->).
  unfold train_invariant.
  cbn [self heap warmup with_input with_internal]. rewrite Hw.
  split; [reflexivity|]. split.
  - exists (ext ++ [c]). rewrite Hh, <- app_assoc, length_app. simpl.
    split; [reflexivity | lia].
  - destruct (Nat.leb_spec (warmup (self w0)) k) as [Hle|Hlt];
      cbn [fst snd].
    + replace (S k - warmup (self w0)) with (S (k - warmup (self w0)))
        by lia.
      rewrite seq_S, map_app, Hf, length_app, Hs.
      cbn [map length]. rewrite Hh, length_app, He.
      replace (warmup (self w0) + (k - warmup (self w0))) with k by lia.
      split; [reflexivity | lia].
    + replace (S k - warmup (self w0)) with 0 by lia.
      replace (k - warmup (self w0)) with 0 in * by lia.
      auto.
Qed.

Lemma train_loop_invariant (train : ndarray) (n : nat)
      (acc : list loc * list ndarray) (w0 w' : world) :
  for_range n (train_body tanh train) ([], []) w0 = Ok acc w' ->
  train_invariant w0 n acc w'.
Proof.
  apply (for_range_invariant (train_invariant w0)).
  - unfold train_invariant. rewrite Nat.sub_0_l. simpl.
    repeat split; auto. exists []. rewrite app_nil_r. auto.
  - intros k a v a' v' _. apply train_invariant_step.
Qed.

Lemma train_steps_inv (train : ndarray) (n : nat)
      (acc : list loc * list ndarray) (w w' : world) :
  train_steps tanh train n w = Ok acc w' ->
  exists t0,
    getitem train 0 = Val t0 /\
    for_range n (train_body tanh train) ([], [])
              (mkWorld (with_input (self w) t0) (heap w)) = Ok acc w'.
Proof. unfold train_steps. intros H. minv. eauto. Qed.

(** The number of recorded states of a run of [n] steps. *)
Lemma train_steps_trace_length (train : ndarray) (n : nat)
      (rs : list loc) (ins : list ndarray) (w w' : world) :
  train_steps tanh train n w = Ok (rs, ins) w' ->
  length rs = n - warmup (self w) /\ length ins = n - warmup (self w).
Proof.
  intros H. apply train_steps_inv in H. destruct H as (t0 & _ & H).
  apply train_loop_invariant in H. destruct H as (_ & _ & Hf & Hs).
  simpl in *. rewrite Hf, length_map, length_seq. auto.
Qed.

Lemma train_steps_intro (train : ndarray) (n : nat) (t0 : ndarray)
      (w : world) :
  getitem train 0 = Val t0 ->
  train_steps tanh train n w =
  for_range n (train_body tanh train) ([], [])
            (mkWorld (with_input (self w) t0) (heap w)).
Proof.
  intros H. unfold train_steps, bind, lift, set_input. rewrite H. reflexivity.
Qed.

(** The store only grows along the training loop. *)
Lemma train_loop_heap_grows (train : ndarray) (l : list nat)
      (a a' : list loc * list ndarray) (v v' : world) :
  for_each (train_body tanh train) l a v = Ok a' v' ->
  exists e, heap v' = heap v ++ e.
Proof.
  apply (for_each_invariant (fun _ _ u => exists e, heap u = heap v ++ e)).
  - exists []. now rewrite app_nil_r.
  - intros k i b u b' u' _ (e & He) H. apply train_body_frame in H.
    destruct H as (r & c & t & _ & _ & -> & _). simpl.
    exists (e ++ [c]). now rewrite He, app_assoc.
Qed.

Lemma load_all_ok (ls : list loc) (w : world) :
  Forall (fun l => l < length (heap w)) ls ->
  load_all ls w = Ok (map (fun l => nth l (heap w) (A1 [])) ls) w.
Proof.
  induction 1 as [|l ls Hl _ IH]; simpl; [reflexivity|].
  unfold bind, load. rewrite (nth_error_nth' _ (A1 []) Hl).
  fold (bind (load_all ls) (fun r => ret (nth l (heap w) (A1 []) :: r)) w).
  rewrite (bind_Ok _ _ _ _ _ IH). reflexivity.
Qed.

Lemma nth_error_map_seq {A} (f : nat -> A) (s m i : nat) :
  i < m -> nth_error (map f (seq s m)) i = Some (f (s + i)).
Proof.
  intros H. rewrite nth_error_map, (nth_error_nth' _ 0), seq_nth;
    rewrite ?length_seq; auto.
Qed.

(** C10. Every state appended to the recording trace is a snapshot: the
    step that is recorded binds [self.internal] to a cell that did not
    exist before, the reference appended is that cell, and what the fit
    reads through the [i]-th reference is the array exactly as that step
    left it. *)
Theorem C10_recorded_states_are_snapshots
        (train : ndarray) (n1 : nat) (rs : list loc) (ins : list ndarray)
        (w w' : world) (i : nat) :
  train_phase tanh train n1 w = Ok (rs, ins) w' ->
  i < length rs ->
  exists acc v acc1 v1 xs,
    train_steps tanh train (warmup (self w) + i) w = Ok acc v /\
    train_body tanh train (warmup (self w) + i) acc v = Ok acc1 v1 /\
    internal (self v1) = length (heap v) /\
    nth_error rs i = Some (internal (self v1)) /\
    load_all rs w' = Ok xs w' /\
    nth_error xs i = Some (current v1) /\
    nth_error (heap w') (internal (self v1)) = Some (current v1).
Proof.
  unfold train_phase. intros H Hi.
  destruct (train_steps_inv _ _ _ _ _ H) as (t0 & Ht0 & Hrun).
  set (w0 := mkWorld (with_input (self w) t0) (heap w)) in *.
  pose proof (train_loop_invariant _ _ _ _ _ Hrun) as (_ & (extn & Hn & Ln) & Hrs & _).
  cbn [fst] in Hrs. change (warmup (self w0)) with (warmup (self w)) in Hrs.
  assert (Hlen : length rs = n1 - 1 - warmup (self w))
    by (rewrite Hrs, length_map, length_seq; reflexivity).
  set (k := warmup (self w) + i).
  destruct (for_range_split _ _ (S k) _ _ _ _ Hrun) as (acc1 & v1 & H1 & H2);
    [unfold k; lia|].
  rewrite for_range_S in H1. apply bind_inv in H1.
  destruct H1 as (acc & v & Hk & Hb).
  pose proof (train_loop_invariant _ _ _ _ _ Hk) as (_ & (extk & Hhk & Lk) & _ & _).
  destruct (train_body_frame _ _ _ _ _ _ Hb) as (r & c & u & _ & _ & Hv1 & _).
  destruct (train_loop_heap_grows _ _ _ _ _ _ H2) as (e & He).
  assert (Hcur : current v1 = c).
  { rewrite Hv1. unfold current. simpl. apply nth_last. }
  assert (Hint : internal (self v1) = length (heap v)) by (rewrite Hv1; reflexivity).
  assert (Hcell : nth_error (heap w') (length (heap v)) = Some c).
  { rewrite He, Hv1. simpl. rewrite <- app_assoc. simpl.
    rewrite nth_error_app2, Nat.sub_diag by lia. reflexivity. }
  assert (Hloc : nth_error rs i = Some (length (heap v))).
  { rewrite Hrs, nth_error_map_seq by lia.
    rewrite Hhk, length_app, Lk. reflexivity. }
  exists acc, v, acc1, v1, (map (fun l => nth l (heap w') (A1 [])) rs).
  split. { rewrite (train_steps_intro _ _ _ _ Ht0). exact Hk. }
  split; [exact Hb|]. split; [exact Hint|].
  split. { rewrite Hint. exact Hloc. }
  split.
  { apply load_all_ok. rewrite Hrs. apply Forall_forall.
    intros l Hl. apply in_map_iff in Hl. destruct Hl as (j & <- & Hj).
    apply in_seq in Hj. rewrite Hn, length_app, Ln. simpl. lia. }
  split.
  { rewrite nth_error_map, Hloc. simpl. rewrite Hcur.
    f_equal. apply nth_error_nth. exact Hcell. }
  rewrite Hint, Hcur. exact Hcell.
Qed.

End Training.

(** The series behind a row of the test slice. *)
Lemma nth_error_slice {A} (data : list A) (s m k : nat) (x d : A) :
  nth_error (firstn m (skipn s data)) k = Some x -> x = nth (s + k) data d.
Proof.
  intros H.
  assert (Hk : k < length (firstn m (skipn s data)))
    by (apply nth_error_Some; congruence).
  rewrite length_firstn in Hk.
  rewrite nth_error_firstn in H.
  destruct (Nat.ltb_spec k m); [|discriminate].
  rewrite nth_error_skipn in H. symmetry. apply nth_error_nth. exact H.
Qed.

Lemma getitem_rows (l : list float) (k : nat) (a : ndarray) :
  getitem (column_of l) k = Val a ->
  exists x, nth_error l k = Some x /\ a = A1 [x].
Proof.
  simpl. rewrite nth_error_map. destruct (nth_error l k) as [x|]; simpl;
    intros H; inversion H. eauto.
Qed.

Section Testing.

Variable tanh : float -> float.
Variable inv : ndarray -> result ndarray.
Variable max_abs_eigvals : ndarray -> result float.

(** ** The test loop *)

Lemma test_loop_appends (test : ndarray) (l : list nat)
      (a a' : list ndarray * list ndarray) (v v' : world) :
  for_each (test_body tanh test) l a v = Ok a' v' ->
  exists e1 e2,
    fst a' = fst a ++ e1 /\ snd a' = snd a ++ e2 /\
    length e1 = length l /\ length e2 = length l.
Proof.
  apply (for_each_invariant
           (fun k b _ => exists e1 e2,
                fst b = fst a ++ e1 /\ snd b = snd a ++ e2 /\
                length e1 = k /\ length e2 = k)).
  - exists [], []. rewrite !app_nil_r. auto.
  - intros k i b u b' u' _ (e1 & e2 & H1 & H2 & L1 & L2) H.
    apply test_body_frame in H.
    destruct H as (r & c & o & o0 & ti & ti0 & _ & _ & _ & _ & _ & _ & ->).
    exists (e1 ++ [o0]), (e2 ++ [ti0]). simpl.
    rewrite H1, H2, <- !app_assoc, !length_app. simpl.
    repeat split; auto; lia.
Qed.

Lemma test_phase_inv (test : ndarray) (n : nat)
      (acc : list ndarray * list ndarray) (w w' : world) :
  test_phase tanh test n w = Ok acc w' ->
  exists t0,
    getitem test 0 = Val t0 /\
    for_range n (test_body tanh test) ([], [])
              (mkWorld (with_input (self w) t0) (heap w)) = Ok acc w'.
Proof. unfold test_phase. intros H. minv. eauto. Qed.

Lemma training_testing_inv (data : list float) (n1 n2 : nat)
      (signal prediction : list ndarray) (w w' : world) :
  training_testing tanh inv data n1 n2 w = Ok (signal, prediction) w' ->
  exists rs ins v W v',
    train_phase tanh (fst (train_test_mackey_glass_npy data n1 n2)) n1 w
    = Ok (rs, ins) v /\
    update inv rs ins v = Ok W v' /\
    test_phase tanh (snd (train_test_mackey_glass_npy data n1 n2))
               (n2 - n1)
               (mkWorld (with_weight_out (self v') W) (heap v'))
    = Ok (prediction, signal) w'.
Proof.
  unfold training_testing. simpl. intros H.
  apply bind_inv in H. destruct H as ([rs ins] & v & H1 & H).
  apply bind_inv in H. destruct H as (W & v' & H2 & H).
  apply bind_inv in H. destruct H as ([] & v2 & H3 & H).
  apply set_weight_out_inv in H3. subst v2.
  apply bind_inv in H. destruct H as ([res sig] & v3 & H4 & H).
  apply ret_inv in H. destruct H as [H ->]. inversion H; subst.
  exists rs, ins, v, W, v'. auto.
Qed.

(** C4. In the test phase of [training_testing(n1, n2)] with [n1 < n2]
    the first input is the first value of the test series; the output of
    every step is the readout of the state that step left and is the input
    in which the next step runs; the returned true signal and prediction
    both have [n2 - n1] entries, the [k]-th of each coming from step [k]. *)
Theorem C4_autonomous_test_phase
        (data : list float) (n1 n2 : nat) (signal prediction : list ndarray)
        (w w' : world) :
  n1 < n2 ->
  training_testing tanh inv data n1 n2 w = Ok (signal, prediction) w' ->
  let test := snd (train_test_mackey_glass_npy data n1 n2) in
  length signal = n2 - n1 /\
  length prediction = n2 - n1 /\
  exists v0,
    input (self v0) = A1 [nth n1 data 0%float] /\
    for_range (n2 - n1) (test_body tanh test) ([], []) v0
    = Ok (prediction, signal) w' /\
    forall k, k < n2 - n1 ->
      exists acc v acc1 v1 o y,
        for_range k (test_body tanh test) ([], []) v0 = Ok acc v /\
        test_body tanh test k acc v = Ok acc1 v1 /\
        for_range (S k) (test_body tanh test) ([], []) v0 = Ok acc1 v1 /\
        for_range (S (S k)) (test_body tanh test) ([], []) v0
        = test_body tanh test (S k) acc1 v1 /\
        np_dot (weight_out (self v1)) (current v1) = Val o /\
        output (self v1) = o /\
        input (self v1) = o /\
        getitem o 0 = Val y /\
        nth_error prediction k = Some y /\
        nth_error signal k = Some (A0 (nth (n1 + k) data 0%float)).
Proof.
  intros Hn H test.
  destruct (training_testing_inv _ _ _ _ _ _ _ H)
    as (rs & ins & v & W & v' & _ & _ & Ht).
  fold test in Ht.
  destruct (test_phase_inv _ _ _ _ _ Ht) as (t0 & Ht0 & Hrun).
  unfold test, train_test_mackey_glass_npy in Ht0. cbn [snd] in Ht0.
  apply getitem_rows in Ht0. destruct Ht0 as (x & Hx & ->).
  rewrite (nth_error_slice _ _ _ _ _ 0%float Hx), Nat.add_0_r in Hrun.
  cbn [self heap] in Hrun.
  set (v0 := mkWorld (with_input (with_weight_out (self v') W)
                                 (A1 [nth n1 data 0%float]))
                     (heap v')) in *.
  destruct (test_loop_appends _ _ _ _ _ _ Hrun)
    as (e1 & e2 & He1 & He2 & L1 & L2).
  simpl in He1, He2. subst e1 e2. rewrite length_seq in L1, L2.
  split; [exact L2|]. split; [exact L1|].
  exists v0. split; [reflexivity|].
  split; [exact Hrun|]. intros k Hk.
  destruct (for_range_split _ _ (S k) _ _ _ _ Hrun) as (acc1 & v1 & H1 & H2);
    [lia|].
  pose proof H1 as H1'. rewrite for_range_S in H1. apply bind_inv in H1.
  destruct H1 as (acc & u & Hpre & Hb).
  destruct (test_body_frame _ _ _ _ _ _ _ Hb)
    as (r & c & o & o0 & ti & ti0 & _ & Ho & Ho0 & Hti & Hti0 & Hv1 & Hacc).
  destruct (test_loop_appends _ _ _ _ _ _ H2) as (e1 & e2 & E1 & E2 & _ & _).
  unfold for_range in Hpre.
  destruct (test_loop_appends _ _ _ _ _ _ Hpre) as (p1 & p2 & P1 & P2 & Q1 & Q2).
  simpl in P1, P2. rewrite length_seq in Q1, Q2.
  exists acc, u, acc1, v1, o, o0.
  split; [exact Hpre|]. split; [exact Hb|]. split; [exact H1'|].
  split. { rewrite for_range_S. apply bind_Ok. exact H1'. }
  split. { rewrite Hv1. unfold current. simpl. rewrite nth_last. exact Ho. }
  split; [rewrite Hv1; reflexivity|].
  split; [rewrite Hv1; reflexivity|].
  split; [exact Ho0|].
  simpl in E1, E2. rewrite E1, E2, Hacc. simpl. rewrite P1, P2.
  split.
  - rewrite <- app_assoc. rewrite nth_error_app2 by lia.
    rewrite Q1, Nat.sub_diag. reflexivity.
  - rewrite <- app_assoc. rewrite nth_error_app2 by lia.
    rewrite Q2, Nat.sub_diag. simpl. f_equal.
    unfold test, train_test_mackey_glass_npy in Hti. cbn [snd] in Hti.
    apply getitem_rows in Hti.
    destruct Hti as (z & Hz & ->). simpl in Hti0. inversion Hti0.
    f_equal. apply (nth_error_slice _ _ _ _ _ 0%float Hz).
Qed.

End Testing.

(** ** Computations that leave the readout weights alone *)

Create HintDb keeps.

Lemma keeps_ret {A} (a : A) : keeps_readout (ret a).
Proof. intros w. reflexivity. Qed.

Lemma keeps_lift {A} (r : result A) : keeps_readout (lift r).
Proof. intros w. unfold lift. destruct r; reflexivity. Qed.

Lemma keeps_get_self : keeps_readout get_self.
Proof. intros w. reflexivity. Qed.

Lemma keeps_load (l : loc) : keeps_readout (load l).
Proof. intros w. unfold load. destruct (nth_error (heap w) l); reflexivity. Qed.

Lemma keeps_alloc (a : ndarray) : keeps_readout (alloc a).
Proof. intros w. reflexivity. Qed.

Lemma keeps_write (l : loc) (a : ndarray) : keeps_readout (write l a).
Proof. intros w. reflexivity. Qed.

Lemma keeps_set_input (a : ndarray) : keeps_readout (set_input a).
Proof. intros w. reflexivity. Qed.

Lemma keeps_set_internal (l : loc) : keeps_readout (set_internal l).
Proof. intros w. reflexivity. Qed.

Lemma keeps_bind {A B} (m : M A) (k : A -> M B) :
  keeps_readout m -> (forall a, keeps_readout (k a)) -> keeps_readout (bind m k).
Proof.
  intros Hm Hk w. unfold bind. specialize (Hm w).
  destruct (m w) as [a w1|e w1]; [|exact Hm].
  specialize (Hk a w1). destruct (k a w1); congruence.
Qed.

#[local] Hint Resolve keeps_ret keeps_lift keeps_get_self keeps_load
  keeps_alloc keeps_write keeps_set_input keeps_set_internal : keeps.
#[local] Hint Extern 2 (keeps_readout (bind _ _)) =>
  apply keeps_bind; [|intros] : keeps.

Lemma keeps_for_each {A} (body : nat -> A -> M A) (l : list nat) :
  (forall i a, keeps_readout (body i a)) ->
  forall acc, keeps_readout (for_each body l acc).
Proof.
  intros Hb. induction l as [|i l IH]; intros acc; simpl; auto with keeps.
Qed.

Lemma keeps_load_all (ls : list loc) : keeps_readout (load_all ls).
Proof. induction ls; simpl; auto 6 with keeps. Qed.

Section Failures.

Variable tanh : float -> float.
Variable inv : ndarray -> result ndarray.
Variable max_abs_eigvals : ndarray -> result float.

Lemma keeps_train_body (train : ndarray) (i : nat)
      (acc : list loc * list ndarray) :
  keeps_readout (train_body tanh train i acc).
Proof.
  unfold train_body, leaky_update, forward, forward_input, forward_internal,
    bias, store_item0, record_and_force.
  auto 20 with keeps.
Qed.

Lemma keeps_train_phase (train : ndarray) (n1 : nat) :
  keeps_readout (train_phase tanh train n1).
Proof.
  unfold train_phase, train_steps, for_range.
  repeat (apply keeps_bind; [auto with keeps | intros]).
  apply keeps_for_each. intros. apply keeps_train_body.
Qed.

(** The fit on empty traces: the two products of empty vectors are
    scalars, the regularised matrix is inverted, and the product of a
    scalar and a matrix is refused. *)
Lemma update_empty (w : world) :
  exists e,
    update inv [] [] w = Raise e w /\
    (e = ValueError \/ exists g, inv g = Exc e).
Proof.
  unfold update, bind, get_self, lift, ret. simpl.
  unfold add. rewrite broadcast_scalar_matrix.
  match goal with |- context [inv ?g] => destruct (inv g) as [gi|e] eqn:E end.
  - exists ValueError. split; [reflexivity | left; reflexivity].
  - exists e. split; [reflexivity | right; eauto].
Qed.

(** C7. A call [training_testing(n, n)] does not return: when training
    and fit complete, the read of [test[0]] on the empty test slice raises
    [IndexError]. *)
Theorem C7_equal_bounds_raise (data : list float) (n : nat) (w : world) :
  let train := fst (train_test_mackey_glass_npy data n n) in
  exists e w',
    training_testing tanh inv data n n w = Raise e w' /\
    (train_phase tanh train n w = Raise e w' \/
     (exists rs ins v,
         train_phase tanh train n w = Ok (rs, ins) v /\
         update inv rs ins v = Raise e w') \/
     (exists rs ins v W v',
         train_phase tanh train n w = Ok (rs, ins) v /\
         update inv rs ins v = Ok W v' /\
         e = IndexError /\
         w' = mkWorld (with_weight_out (self v') W) (heap v'))).
Proof.
  intros train. subst train. unfold training_testing.
  cbn [train_test_mackey_glass_npy fst].
  rewrite Nat.sub_diag. cbn [firstn].
  set (train := column_of (firstn n data)).
  unfold bind at 1.
  destruct (train_phase tanh train n w) as [[rs ins] v|e v] eqn:Ht.
  - unfold bind at 1. destruct (update inv rs ins v) as [W v'|e v'] eqn:Hu.
    + exists IndexError, (mkWorld (with_weight_out (self v') W) (heap v')).
      split; [reflexivity|]. right; right. eauto 10.
    + exists e, v'. split; [reflexivity|]. right; left. eauto.
  - exists e, v. split; [reflexivity | left; reflexivity].
Qed.

(** C8, as the code has it. A call with [n1 <= warmup] fails and leaves
    [W_out] as it was.  When the teacher-forced run completes, the two
    traces are empty, the fit is attempted on them, and the error is the
    [ValueError] of the matrix product unless the inversion itself
    raises. *)
Theorem C8_short_training_fails
        (data : list float) (n1 n2 : nat) (w : world) :
  n1 <= warmup (self w) ->
  let train := fst (train_test_mackey_glass_npy data n1 n2) in
  exists e w',
    training_testing tanh inv data n1 n2 w = Raise e w' /\
    weight_out (self w') = weight_out (self w) /\
    (train_phase tanh train n1 w = Raise e w' \/
     (train_phase tanh train n1 w = Ok ([], []) w' /\
      update inv [] [] w' = Raise e w' /\
      (e = ValueError \/ exists g, inv g = Exc e))).
Proof.
  intros Hn train. subst train. unfold training_testing.
  cbn [train_test_mackey_glass_npy fst].
  set (train := column_of (firstn n1 data)).
  unfold bind at 1.
  pose proof (keeps_train_phase train n1 w) as Hk.
  destruct (train_phase tanh train n1 w) as [[rs ins] v|e v] eqn:Ht.
  - destruct (train_steps_trace_length _ _ _ _ _ _ _ Ht) as [Lr Li].
    replace (n1 - 1 - warmup (self w)) with 0 in * by lia.
    destruct rs; [|discriminate]. destruct ins; [|discriminate].
    destruct (update_empty v) as (e & He & Hor).
    exists e, v. unfold bind at 1. rewrite He. auto 10.
  - exists e, v. auto.
Qed.

(** C9, as the code has it. When the largest eigenvalue magnitude of the
    masked draw is zero, the constructor does not fail: the quotient
    [1.25 / 0.0] is [inf] and the recurrent matrix is the draw multiplied
    by it. *)
Theorem C9_degenerate_matrix_not_refused
        (dx dy du : nat) (rnd : draws) (W : ndarray) :
  dy = du ->
  imultiply (draw_weight rnd) (less_than 1%float (draw_mask rnd)) = Val W ->
  max_abs_eigvals W = Val 0%float ->
  exists w0,
    __init__ max_abs_eigvals dx dy du rnd = Val w0 /\
    weight (self w0) = scale infinity W.
Proof.
  intros -> HW Hrho. unfold __init__. rewrite Nat.eqb_refl. simpl.
  rewrite HW. simpl. rewrite Hrho. simpl. eexists. split; reflexivity.
Qed.

End Failures.

Section StateUpdate.

Variable tanh : float -> float.
Variable inv : ndarray -> result ndarray.
Variable max_abs_eigvals : ndarray -> result float.

(** The leaky integration of a well-shaped instance cannot fail. *)
Lemma leaky_update_ok (w : world) :
  shapes_ok w = true -> input_ok w = true ->
  leaky_update tanh w =
  Ok tt (mkWorld (with_internal (self w) (length (heap w)))
           (heap w ++
              [A1 (leaky_integration tanh (leak (self w))
                     (rows_of (weight_in (self w)))
                     (rows_of (weight (self w)))
                     (vec_of (input (self w)))
                     (vec_of (current w)))])).
Proof.
  intros Hs Hi.
  destruct (shapes_ok_inv _ Hs)
    as (Win & W & x & HWin & HW & Hx & Hc & L1 & L2 & L3 & Hd).
  destruct (input_ok_inv _ Hi) as (u & Hu).
  rewrite HWin, HW, Hu, Hc. simpl.
  unfold leaky_update, forward, forward_input, forward_internal.
  unfold bind, get_self, load, lift, alloc, set_internal, ret. simpl.
  rewrite Hx. simpl. rewrite HWin, Hu. simpl. rewrite Hx, HW. simpl.
  rewrite <- L3, Nat.eqb_refl.
  rewrite add_vectors by (rewrite !length_map; lia). simpl.
  rewrite add_vectors
    by (unfold vadd; rewrite !length_map, length_map2, !length_map; lia).
  reflexivity.
Qed.

Lemma shapes_ok_next (s : Reservoir) (h : list ndarray) (x : list float) :
  shapes_ok (mkWorld s h) = true ->
  length x = dim_N_x s ->
  shapes_ok (mkWorld (with_internal s (length h)) (h ++ [A1 x])) = true.
Proof.
  unfold shapes_ok, current. simpl. intros H Hx.
  repeat (apply andb_prop in H; destruct H as [H ?]).
  rewrite length_app, nth_last. simpl.
  repeat (apply andb_true_intro; split); auto.
  - apply Nat.ltb_lt. lia.
  - apply Nat.eqb_eq. exact Hx.
Qed.

Lemma length_next_state (w : world) :
  shapes_ok w = true -> length (next_state tanh w) = dim_N_x (self w).
Proof.
  intros Hs.
  destruct (shapes_ok_inv _ Hs)
    as (Win & W & x & HWin & HW & Hx & Hc & L1 & L2 & L3 & Hd).
  unfold next_state. rewrite HWin, HW, Hc. simpl.
  pose proof (length_leaky_integration tanh (leak (self w)) Win W
                (vec_of (input (self w))) x _ L1 L2 L3) as HL.
  destruct (leaky_integration tanh (leak (self w)) Win W
              (vec_of (input (self w))) x); simpl in *; lia.
Qed.

(** A step keeps the instance well-shaped. *)
Lemma step_shapes_ok (w : world) :
  shapes_ok w = true ->
  shapes_ok (mkWorld (with_internal (self w) (length (heap w)))
                     (heap w ++ [A1 (next_state tanh w)])) = true.
Proof.
  intros Hs. apply shapes_ok_next; [| apply length_next_state; auto].
  destruct w; exact Hs.
Qed.

(** C5. Every state update computes
    [x_new = (1 - alpha) x_prev + alpha tanh(W_in u + W x_prev)], with no
    bias term in the pre-activation: this is what [leaky_update] binds
    [self.internal] to, and the state that an iteration of the training
    loop or of the test loop leaves is that vector with its first entry
    overwritten.  The constructor sets [alpha = 0.5]. *)
Theorem C5_state_update_formula (w : world) :
  shapes_ok w = true -> input_ok w = true ->
  let s := self w in
  let x_new :=
    leaky_integration tanh (leak s) (rows_of (weight_in s))
      (rows_of (weight s)) (vec_of (input s)) (vec_of (current w)) in
  leaky_update tanh w =
    Ok tt (mkWorld (with_internal s (length (heap w)))
                   (heap w ++ [A1 x_new])) /\
  (forall train i acc acc' w',
      train_body tanh train i acc w = Ok acc' w' ->
      current w' = A1 (1%float :: tl x_new)) /\
  (forall test i acc acc' w',
      test_body tanh test i acc w = Ok acc' w' ->
      current w' = A1 (1%float :: tl x_new)) /\
  (forall dx dy du rnd w0,
      __init__ max_abs_eigvals dx dy du rnd = Val w0 ->
      leak (self w0) = 0.5%float).
Proof.
  intros Hs Hi s x_new. split; [apply leaky_update_ok; assumption|].
  pose proof (step_ok tanh w Hs Hi) as Hstep.
  split; [|split].
  - intros train i acc acc' w' H. apply train_body_inv in H.
    destruct H as (w1 & H1 & H2). rewrite Hstep in H1. inversion H1; subst w1.
    apply record_and_force_inv in H2. destruct H2 as (u & _ & -> & _).
    unfold current. simpl. apply nth_last.
  - intros test i acc acc' w' H. apply test_body_inv in H.
    destruct H as (w1 & H1 & H2). rewrite Hstep in H1. inversion H1; subst w1.
    apply predict_and_feed_inv in H2.
    destruct H2 as (? & ? & ? & ? & ? & _ & _ & _ & _ & _ & -> & _).
    unfold current. simpl. apply nth_last.
  - intros dx dy du rnd w0. unfold __init__.
    destruct (negb (dy =? du)); [discriminate|].
    destruct (imultiply _ _); simpl; [|discriminate].
    destruct (max_abs_eigvals a); simpl; [|discriminate].
    intros H; inversion H; reflexivity.
Qed.

(** C6. After every state update of a well-shaped instance the first
    entry of the internal state is exactly [1]: in the training loop the
    reference appended to the trace is the cell that holds it, and in the
    test loop the output is the readout of it.  The instance stays
    well-shaped, so this holds at every step of both loops. *)
Theorem C6_bias_before_record_and_output (w : world) :
  shapes_ok w = true -> input_ok w = true ->
  (forall train i acc acc' w',
      train_body tanh train i acc w = Ok acc' w' ->
      exists t,
        nth_error (heap w') (internal (self w')) = Some (A1 (1%float :: t)) /\
        shapes_ok w' = true /\
        (warmup (self w) <= i ->
         fst acc' = fst acc ++ [internal (self w')])) /\
  (forall test i acc acc' w',
      test_body tanh test i acc w = Ok acc' w' ->
      exists t,
        nth_error (heap w') (internal (self w')) = Some (A1 (1%float :: t)) /\
        shapes_ok w' = true /\
        np_dot (weight_out (self w')) (A1 (1%float :: t))
        = Val (output (self w'))).
Proof.
  intros Hs Hi.
  pose proof (step_ok tanh w Hs Hi) as Hstep.
  pose proof (step_shapes_ok w Hs) as Hnext.
  split.
  - intros train i acc acc' w' H. apply train_body_inv in H.
    destruct H as (w1 & H1 & H2). rewrite Hstep in H1. inversion H1; subst w1.
    apply record_and_force_inv in H2. destruct H2 as (u & _ & -> & ->).
    eexists. simpl. split; [apply nth_error_last|]. split; [exact Hnext|].
    intros Hw. apply Nat.leb_le in Hw. rewrite Hw. reflexivity.
  - intros test i acc acc' w' H. apply test_body_inv in H.
    destruct H as (w1 & H1 & H2). rewrite Hstep in H1. inversion H1; subst w1.
    apply predict_and_feed_inv in H2.
    destruct H2 as (x & o & o0 & ti & ti0 & Hx & Ho & _ & _ & _ & -> & _).
    simpl in *. rewrite nth_error_last in Hx. inversion Hx; subst x.
    eexists. split; [apply nth_error_last|]. split; [exact Hnext|].
    exact Ho.
Qed.

End StateUpdate.

Lemma length_columns (c : nat) (m : matrix) : length (columns c m) = c.
Proof. unfold columns. now rewrite length_map, length_seq. Qed.

Lemma forallb_map' {A B} (f : B -> bool) (g : A -> B) (l : list A) :
  forallb f (map g l) = forallb (fun x => f (g x)) l.
Proof. induction l as [|x l IH]; simpl; [reflexivity | now rewrite IH]. Qed.

(** A non-empty Python list of vectors of one length becomes the matrix
    that has them as rows. *)
Lemma asarray_vectors (d : nat) (m : matrix) :
  1 <= length m -> Forall (fun r => length r = d) m ->
  asarray (map A1 m) = Val (A2 d m).
Proof.
  intros Hm Hd. destruct m as [|r m]; [simpl in Hm; lia|].
  assert (Hr : length r = d) by (inversion Hd; assumption).
  cbn [map asarray].
  assert (R : all_rank 1 (A1 r :: map A1 m) = true).
  { unfold all_rank. simpl. rewrite forallb_map'. apply forallb_forall.
    reflexivity. }
  assert (L : forallb (fun a => length (vec_of a) =? length r)
                      (A1 r :: map A1 m) = true).
  { change (A1 r :: map A1 m) with (map A1 (r :: m)).
    rewrite forallb_map'. apply forallb_forall. intros x Hx. simpl.
    rewrite Forall_forall in Hd. rewrite (Hd x Hx), Hr. apply Nat.eqb_refl. }
  rewrite R, L. rewrite Hr. do 2 f_equal.
  change (A1 r :: map A1 m) with (map A1 (r :: m)).
  rewrite map_map. simpl. f_equal. apply map_id.
Qed.

Section Readout.

Variable tanh : float -> float.
Variable inv : ndarray -> result ndarray.
Variable max_abs_eigvals : ndarray -> result float.

(** C3. On a recorded trace of [k >= 1] states of length [dim_N_x] and as
    many targets, read through the references [rs], the fit returns
    [(Y X^T) (X X^T + eps I)^-1] with [eps = 1e-8], [I] the identity of
    size [dim_N_x], [X] and [Y] the transposes of the two traces (time
    along columns), the inverse being the library's. *)
Theorem C3_readout_is_ridge_regression
        (w : world) (rs : list loc) (trace targets : matrix) (dy : nat) :
  let d := dim_N_x (self w) in
  let k := length trace in
  1 <= k ->
  length targets = k ->
  Forall (fun r => length r = d) trace ->
  Forall (fun r => length r = dy) targets ->
  load_all rs w = Ok (map A1 trace) w ->
  update inv rs (map A1 targets) w =
  lift (ridge_readout inv 1e-8%float d k (mT d trace) (mT dy targets)) w.
Proof.
  intros d k Hk Ht Hd Hy Hload.
  unfold update. unfold bind at 1. unfold get_self.
  rewrite (bind_Ok _ _ _ _ _ Hload).
  rewrite (asarray_vectors d trace Hk Hd).
  rewrite (asarray_vectors dy targets) by (try rewrite Ht; assumption).
  unfold bind, lift, ret. cbn [rbind transpose].
  fold k. rewrite Ht, length_columns. fold d.
  unfold ridge_readout, mT.
  cbn [matmul]. rewrite length_columns, Nat.eqb_refl.
  fold (mmul (columns dy targets) (columns k (columns d trace)) d).
  fold (mmul (columns d trace) (columns k (columns d trace)) d).
  unfold add, scale, eye. cbn [amap].
  fold (identity d). fold (mscale 1e-8%float (identity d)).
  rewrite broadcast_matrices.
  - fold (madd (mmul (columns d trace) (columns k (columns d trace)) d)
               (mscale 1e-8%float (identity d))).
    destruct (inv _) as [G|e]; [|reflexivity].
    destruct G as [x|v|c2 r2]; simpl; try reflexivity;
      destruct (d =? _); reflexivity.
  - unfold mmul, mscale, identity.
    now rewrite !length_map, length_columns, length_seq.
  - apply Forall_forall. intros r Hr. unfold mmul in Hr.
    apply in_map_iff in Hr. destruct Hr as (r0 & <- & _).
    now rewrite length_map, length_columns.
  - apply Forall_forall. intros r Hr. unfold mscale, identity in Hr.
    apply in_map_iff in Hr. destruct Hr as (r0 & <- & Hr0).
    apply in_map_iff in Hr0. destruct Hr0 as (i & <- & _).
    unfold vscale. now rewrite !length_map, length_seq.
Qed.

End Readout.

Section Progress.

Variable tanh : float -> float.
Variable inv : ndarray -> result ndarray.
Variable max_abs_eigvals : ndarray -> result float.

(** ** Runs of a well-shaped instance do not fail *)

Lemma getitem_column_of (l : list float) (i : nat) (x : float) :
  nth_error l i = Some x -> getitem (column_of l) i = Val (A1 [x]).
Proof. intros H. simpl. rewrite nth_error_map, H. reflexivity. Qed.

Lemma train_body_ok (l : list float) (i : nat)
      (acc : list loc * list ndarray) (w : world) (x : float) :
  shapes_ok w = true -> input_ok w = true ->
  nth_error l (i + 1) = Some x ->
  train_body tanh (column_of l) i acc w =
  Ok (if warmup (self w) <=? i
      then (fst acc ++ [length (heap w)], snd acc ++ [input (self w)])
      else acc)
     (mkWorld (with_input (with_internal (self w) (length (heap w))) (A1 [x]))
              (heap w ++ [A1 (next_state tanh w)])).
Proof.
  intros Hs Hi Hx. unfold train_body. rewrite step_bind.
  rewrite (bind_Ok _ _ _ _ _ (step_ok tanh w Hs Hi)).
  unfold record_and_force, bind, get_self, lift, set_input, ret.
  rewrite (getitem_column_of _ _ _ Hx). reflexivity.
Qed.

Lemma train_steps_ok (l : list float) (n : nat) (w : world) :
  shapes_ok w = true -> n < length l ->
  exists acc w',
    train_steps tanh (column_of l) n w = Ok acc w' /\
    shapes_ok w' = true /\ input_ok w' = true.
Proof.
  intros Hs Hn.
  destruct (nth_error l 0) as [x0|] eqn:H0;
    [|apply nth_error_None in H0; lia].
  rewrite (train_steps_intro tanh _ n _ w (getitem_column_of _ _ _ H0)).
  apply (for_range_progress
           (fun _ _ v => shapes_ok v = true /\ input_ok v = true)).
  - split; [destruct w; exact Hs | reflexivity].
  - intros k a v Hk [Hsv Hiv].
    destruct (nth_error l (k + 1)) as [x|] eqn:Hx;
      [|apply nth_error_None in Hx; lia].
    eexists _, _. split; [apply (train_body_ok _ _ _ _ _ Hsv Hiv Hx)|].
    split; [|reflexivity]. apply (step_shapes_ok tanh v Hsv).
Qed.

Lemma readout_ok_inv (w : world) :
  readout_ok w = true ->
  exists wo, weight_out (self w) = A2 (dim_N_x (self w)) [wo].
Proof.
  unfold readout_ok. destruct (weight_out (self w)) as [|?|c rows];
    try discriminate. simpl. intros H.
  repeat (apply andb_prop in H; destruct H as [H ?]).
  apply Nat.eqb_eq in H. subst c.
  destruct rows as [|wo [|]]; try discriminate. eauto.
Qed.

Lemma test_body_ok (l : list float) (i : nat)
      (acc : list ndarray * list ndarray) (w : world) (x : float) :
  shapes_ok w = true -> input_ok w = true -> readout_ok w = true ->
  nth_error l i = Some x ->
  exists y,
    test_body tanh (column_of l) i acc w =
    Ok (fst acc ++ [A0 y], snd acc ++ [A0 x])
       (mkWorld (with_input
                   (with_output
                      (with_internal (self w) (length (heap w))) (A1 [y]))
                   (A1 [y]))
                (heap w ++ [A1 (next_state tanh w)])).
Proof.
  intros Hs Hi Hr Hx. destruct (readout_ok_inv _ Hr) as (wo & Hwo).
  exists (dot wo (next_state tanh w)).
  unfold test_body. rewrite step_bind.
  rewrite (bind_Ok _ _ _ _ _ (step_ok tanh w Hs Hi)).
  unfold predict_and_feed, forward_out, bind, get_self, load, lift,
    set_output, set_input, ret.
  cbn [self heap internal with_internal weight_out].
  rewrite nth_error_last, Hwo. cbn [np_dot matmul].
  rewrite (length_next_state tanh w Hs), Nat.eqb_refl.
  cbn [map getitem nth_error]. rewrite (getitem_column_of _ _ _ Hx).
  reflexivity.
Qed.

Lemma test_phase_ok (l : list float) (n : nat) (w : world) :
  shapes_ok w = true -> readout_ok w = true ->
  1 <= length l -> n <= length l ->
  exists acc w', test_phase tanh (column_of l) n w = Ok acc w'.
Proof.
  intros Hs Hr Hl Hn.
  destruct (nth_error l 0) as [x0|] eqn:H0;
    [|apply nth_error_None in H0; lia].
  unfold test_phase, bind at 1, lift. rewrite (getitem_column_of _ _ _ H0).
  unfold bind at 1, set_input.
  destruct (for_range_progress
              (fun _ _ v => shapes_ok v = true /\ input_ok v = true
                            /\ readout_ok v = true)
              (test_body tanh (column_of l)) n ([], [])
              (mkWorld (with_input (self w) (A1 [x0])) (heap w)))
    as (acc & w' & H & _).
  - repeat split; destruct w; assumption.
  - intros k a v Hk (Hsv & Hiv & Hrv).
    destruct (nth_error l k) as [x|] eqn:Hx;
      [|apply nth_error_None in Hx; lia].
    destruct (test_body_ok _ _ a _ _ Hsv Hiv Hrv Hx) as (y & Hy).
    eexists _, _. split; [exact Hy|].
    split; [apply (step_shapes_ok tanh v Hsv)|].
    split; [reflexivity | exact Hrv].
  - eauto.
Qed.

Lemma load_all_pure (ls : list loc) (xs : list ndarray) (w w' : world) :
  load_all ls w = Ok xs w' -> w' = w.
Proof.
  revert xs. induction ls as [|l ls IH]; simpl; intros xs H; minv; auto.
  eapply IH; eauto.
Qed.

Lemma update_pure (rs : list loc) (ins : list ndarray) (W : ndarray)
      (w w' : world) :
  update inv rs ins w = Ok W w' -> w' = w.
Proof.
  unfold update. intros H. minv.
  match goal with E : load_all _ _ = Ok _ _ |- _ =>
    apply load_all_pure in E; subst end.
  minv. reflexivity.
Qed.

(** The rows that the fit reads: on a well-shaped instance every recorded
    reference points, when the training phase ends, to a vector of
    [dim_N_x] entries whose first entry is [1]. *)
Lemma train_phase_rows (l : list float) (n1 : nat) (rs : list loc)
      (ins : list ndarray) (w w' : world) :
  shapes_ok w = true ->
  train_phase tanh (column_of l) n1 w = Ok (rs, ins) w' ->
  Forall (fun r => exists t,
              nth_error (heap w') r = Some (A1 (1%float :: t)) /\
              length (1%float :: t) = dim_N_x (self w))
         rs.
Proof.
  intros Hs H. unfold train_phase in H. apply train_steps_inv in H.
  destruct H as (t0 & Ht0 & H). apply getitem_rows in Ht0.
  destruct Ht0 as (x0 & _ & ->).
  apply (for_range_invariant
           (fun _ acc v =>
              shapes_ok v = true /\ input_ok v = true /\
              dim_N_x (self v) = dim_N_x (self w) /\
              Forall (fun r => exists t,
                          nth_error (heap v) r = Some (A1 (1%float :: t)) /\
                          length (1%float :: t) = dim_N_x (self w))
                     (fst acc))) in H.
  - apply H.
  - repeat split; auto.
  - intros k a v a' v' _ (Hsv & Hiv & Hd & Hall) Hb.
    apply train_body_inv in Hb. destruct Hb as (w1 & H1 & H2).
    rewrite (step_ok tanh v Hsv Hiv) in H1. inversion H1; subst w1. clear H1.
    apply record_and_force_inv in H2. destruct H2 as (u & Hu & -> & ->).
    apply getitem_rows in Hu. destruct Hu as (x & _ & ->).
    split; [apply (step_shapes_ok tanh v Hsv)|].
    split; [reflexivity|]. split; [exact Hd|].
    assert (Hold : Forall
                     (fun r => exists t,
                          nth_error (heap v ++ [A1 (next_state tanh v)]) r
                          = Some (A1 (1%float :: t)) /\
                          length (1%float :: t) = dim_N_x (self w))
                     (fst a)).
    { eapply Forall_impl; [|exact Hall]. intros r (t & Hr & Lt).
      exists t. split; [|exact Lt]. rewrite nth_error_app1; [exact Hr|].
      apply nth_error_Some. congruence. }
    cbn [self heap warmup internal with_internal with_input].
    destruct (warmup (self v) <=? k); cbn [fst]; [|exact Hold].
    apply Forall_app. split; [exact Hold|]. constructor; [|constructor].
    exists (tl (leaky_integration tanh (leak (self v))
                  (rows_of (weight_in (self v))) (rows_of (weight (self v)))
                  (vec_of (input (self v))) (vec_of (current v)))).
    split; [apply nth_error_last|].
    rewrite <- Hd. apply (length_next_state tanh v Hsv).
Qed.

(** When the fit returns a readout of shape [(1, dim_N_x)], a call on a
    well-shaped instance with enough data returns. *)
Lemma training_testing_returns (data : list float) (n1 n2 : nat) (w : world) :
  shapes_ok w = true ->
  1 <= n1 -> n1 < n2 -> n2 <= length data ->
  (forall rs ins v,
      train_phase tanh (fst (train_test_mackey_glass_npy data n1 n2)) n1 w
      = Ok (rs, ins) v ->
      exists W v', update inv rs ins v = Ok W v' /\
                   has_shape 1 (dim_N_x (self w)) W = true) ->
  exists signal prediction w',
    training_testing tanh inv data n1 n2 w = Ok (signal, prediction) w'.
Proof.
  intros Hs H1 H2 H3 Hfit. unfold training_testing.
  cbn [train_test_mackey_glass_npy fst] in *.
  fold (column_of (firstn n1 data)) in *.
  fold (column_of (firstn (n2 - n1) (skipn n1 data))).
  destruct (train_steps_ok (firstn n1 data) (n1 - 1) w Hs)
    as ([rs ins] & v & Ht & Hsv & _).
  { rewrite length_firstn. lia. }
  fold (train_phase tanh (column_of (firstn n1 data)) n1) in Ht.
  destruct (Hfit _ _ _ Ht) as (W & v' & Hu & HW).
  pose proof (update_pure _ _ _ _ _ Hu) as ->.
  rewrite (bind_Ok _ _ _ _ _ Ht). cbn beta iota.
  rewrite (bind_Ok _ _ _ _ _ Hu).
  unfold bind at 1, set_weight_out.
  destruct (test_phase_ok (firstn (n2 - n1) (skipn n1 data)) (n2 - n1)
              (mkWorld (with_weight_out (self v) W) (heap v)))
    as ([res sig] & w' & Hp).
  - destruct v; exact Hsv.
  - unfold readout_ok. cbn [self weight_out with_weight_out dim_N_x].
    assert (Hd : dim_N_x (self v) = dim_N_x (self w)).
    { unfold train_phase in Ht. apply train_steps_inv in Ht.
      destruct Ht as (t0 & _ & Ht).
      apply (for_range_invariant
               (fun _ _ u => dim_N_x (self u) = dim_N_x (self w))) in Ht;
        auto.
      intros k a u a' u' _ Hu' Hb. apply train_body_frame in Hb.
      destruct Hb as (? & ? & ? & _ & _ & -> & _). exact Hu'. }
    rewrite Hd. exact HW.
  - rewrite length_firstn, length_skipn. lia.
  - rewrite length_firstn, length_skipn. lia.
  - rewrite (bind_Ok _ _ _ _ _ Hp). eexists _, _, _. reflexivity.
Qed.

End Progress.

(** ** The constructor *)

Lemma Forall_map2 {A B C} (P : A -> Prop) (Q : B -> Prop) (R : C -> Prop)
      (g : A -> B -> C) (l : list A) (m : list B) :
  (forall x y, P x -> Q y -> R (g x y)) ->
  Forall P l -> Forall Q m -> Forall R (map2 g l m).
Proof.
  intros Hg Hl. revert m. induction Hl as [|x l Hx _ IH]; intros m Hm.
  - constructor.
  - destruct Hm as [|y m Hy Hm]; simpl; constructor; auto.
Qed.

Lemma has_shape_inv (r c : nat) (a : ndarray) :
  has_shape r c a = true ->
  exists rows,
    a = A2 c rows /\ length rows = r /\ Forall (fun row => length row = c) rows.
Proof.
  destruct a as [|?|c' rows]; simpl; try discriminate. intros H.
  apply andb_prop in H. destruct H as [H H3].
  apply andb_prop in H. destruct H as [H1 H2].
  apply Nat.eqb_eq in H1, H2. subst c'. exists rows.
  repeat split; auto. apply Forall_forall. intros row Hrow.
  rewrite forallb_forall in H3. apply Nat.eqb_eq, H3, Hrow.
Qed.

Lemma has_shape_intro (r c : nat) (rows : matrix) :
  length rows = r -> Forall (fun row => length row = c) rows ->
  has_shape r c (A2 c rows) = true.
Proof.
  intros H1 H2. simpl. rewrite H1, !Nat.eqb_refl. simpl.
  apply forallb_forall. intros row Hrow. rewrite Forall_forall in H2.
  apply Nat.eqb_eq, H2, Hrow.
Qed.

Section Constructor.

Variable max_abs_eigvals : ndarray -> result float.

(** The in-place product of the draw and the mask, both [(d, d)]. *)
Lemma imultiply_matrices (d : nat) (a b : ndarray) :
  has_shape d d a = true -> has_shape d d b = true ->
  exists rows, imultiply a b = Val (A2 d rows) /\
               has_shape d d (A2 d rows) = true.
Proof.
  intros Ha Hb.
  destruct (has_shape_inv _ _ _ Ha) as (ra & -> & La & Fa).
  destruct (has_shape_inv _ _ _ Hb) as (rb & -> & Lb & Fb).
  exists (map2 (map2 PrimFloat.mul) ra rb).
  assert (Hs : has_shape d d (A2 d (map2 (map2 PrimFloat.mul) ra rb)) = true).
  { apply has_shape_intro.
    - rewrite length_map2. lia.
    - apply (Forall_map2 _ _ _ _ _ _ (fun x y Hx Hy =>
               eq_trans (length_map2 PrimFloat.mul x y)
                        (eq_trans (f_equal2 Nat.min Hx Hy) (Nat.min_id d)))
               Fa Fb). }
  split; [|exact Hs].
  unfold imultiply, multiply. rewrite broadcast_matrices by congruence.
  cbn [rbind]. unfold same_shape. cbn [rank shape2 fst snd].
  rewrite length_map2, La, Lb, Nat.min_id, !Nat.eqb_refl. reflexivity.
Qed.

Lemma has_shape_amap (f : float -> float) (r c : nat) (a : ndarray) :
  has_shape r c a = true -> has_shape r c (amap f a) = true.
Proof.
  intros H. destruct (has_shape_inv _ _ _ H) as (rows & -> & L & F).
  cbn [amap]. apply has_shape_intro.
  - now rewrite length_map.
  - apply Forall_forall. intros row Hrow. apply in_map_iff in Hrow.
    destruct Hrow as (r0 & <- & Hr0). rewrite length_map.
    rewrite Forall_forall in F. apply F, Hr0.
Qed.

(** What the constructor does to the recurrent matrix: the masked draw is
    multiplied by [radius / rho], where [rho] is the largest eigenvalue
    magnitude that the library reports for it. *)
Lemma init_rescales (dx dy du : nat) (rnd : draws) (w0 : world) :
  __init__ max_abs_eigvals dx dy du rnd = Val w0 ->
  exists W rho,
    imultiply (draw_weight rnd) (less_than 1%float (draw_mask rnd)) = Val W /\
    max_abs_eigvals W = Val rho /\
    radius (self w0) = 1.25%float /\
    weight (self w0) = scale (1.25 / rho)%float W.
Proof.
  unfold __init__. cbv zeta. destruct (negb (dy =? du)); [discriminate|].
  destruct (imultiply _ _) as [W|e]; [|discriminate]. cbn [rbind].
  destruct (max_abs_eigvals W) as [rho|e] eqn:E; [|discriminate].
  cbn [rbind]. intros H. inversion H; subst w0. exists W, rho. auto.
Qed.

(** The constructor, called with one input unit, builds a well-shaped
    instance. *)
Lemma init_shapes_ok (dx dy : nat) (rnd : draws) (w0 : world) :
  1 <= dx ->
  draws_ok dx dy 1 rnd = true ->
  __init__ max_abs_eigvals dx dy 1 rnd = Val w0 ->
  shapes_ok w0 = true.
Proof.
  intros Hdx Hd. unfold draws_ok in Hd.
  apply andb_prop in Hd. destruct Hd as [Hd Hx].
  apply andb_prop in Hd. destruct Hd as [Hd Hmask].
  apply andb_prop in Hd. destruct Hd as [Hd Hw].
  apply andb_prop in Hd. destruct Hd as [Hin _].
  unfold __init__. cbv zeta. destruct (negb (dy =? 1)); [discriminate|].
  destruct (imultiply_matrices dx (draw_weight rnd)
              (less_than 1%float (draw_mask rnd)) Hw
              (has_shape_amap _ _ _ _ Hmask))
    as (rows & Hm & Hrows).
  rewrite Hm. cbn [rbind]. destruct (max_abs_eigvals _) as [rho|e];
    [|discriminate].
  cbn [rbind]. intros E. inversion E; subst w0. clear E.
  unfold shapes_ok, current.
  cbn [self heap dim_N_x weight_in weight internal length nth].
  change (A2 dx (map (map (PrimFloat.mul (1.25 / rho))) rows))
    with (amap (PrimFloat.mul (1.25 / rho)) (A2 dx rows)).
  rewrite Hin, Hx, (has_shape_amap _ _ _ _ Hrows).
  rewrite (proj2 (Nat.leb_le 1 dx) Hdx). reflexivity.
Qed.

End Constructor.

Section TraceLength.

Variable tanh : float -> float.

Lemma train_phase_trace_length
      (train : ndarray) (n1 : nat) (rs : list loc) (ins : list ndarray)
      (w w' : world) :
  train_phase tanh train n1 w = Ok (rs, ins) w' ->
  length rs = n1 - 1 - warmup (self w) /\
  length ins = n1 - 1 - warmup (self w).
Proof. unfold train_phase. apply train_steps_trace_length. Qed.

(** C1, as the code has it. The loop of the training phase runs over
    [range(n1 - 1)], so a run that completes has recorded
    [n1 - 1 - warmup] states and as many targets, one for each step
    [warmup .. n1 - 2]: the reference recorded at step [i] is the cell
    that step allocated.  This is one less than [n1 - warmup] whenever
    [warmup < n1]. *)
Theorem C1_recorded_trace_length
        (train : ndarray) (n1 : nat) (rs : list loc) (ins : list ndarray)
        (w w' : world) :
  train_phase tanh train n1 w = Ok (rs, ins) w' ->
  length rs = n1 - 1 - warmup (self w) /\
  length ins = n1 - 1 - warmup (self w) /\
  rs = map (fun i => length (heap w) + i)
           (seq (warmup (self w)) (n1 - 1 - warmup (self w))).
Proof.
  intros H. destruct (train_phase_trace_length _ _ _ _ _ _ H) as [Lr Li].
  split; [exact Lr|]. split; [exact Li|].
  unfold train_phase in H. apply train_steps_inv in H.
  destruct H as (t0 & _ & H). apply train_loop_invariant in H.
  destruct H as (_ & _ & Hrs & _). exact Hrs.
Qed.

End TraceLength.

(** * The theorems on concrete runs *)

(** The constructor on [Ref.some_draws 3]. *)
Example init_esn :
  __init__ Ref.max_abs_diag 3 1 1 (Ref.some_draws 3) = Val (Ref.esn 3).
Proof. vm_compute. reflexivity. Qed.

(** The reference inverse on a matrix of determinant one. *)
Example inv_two_by_two :
  Ref.inv (A2 2 [[2%float; 1%float]; [1%float; 1%float]]) =
  Val (A2 2 [[1%float; (-1)%float]; [(-1)%float; 2%float]]).
Proof. vm_compute. reflexivity. Qed.

(** The draws [Ref.some_draws d] have the shapes the constructor asks for. *)
Example some_draws_ok : draws_ok 10 1 1 (Ref.some_draws 10) = true.
Proof. reflexivity. Qed.

Example init_dimension_mismatch (rnd : draws) :
  __init__ Ref.max_abs_diag 3 1 2 rnd = Exc ValueError.
Proof. reflexivity. Qed.

(** The scenario with [warmup = 2] and [n1 = 10]: seven states are
    recorded, not eight. *)
Lemma C1_scenario_records_seven_rows :
  exists rs ins w',
    train_phase Ref.softsign (column_of (Ref.constant_series 0.5 10)) 10
                Ref.scenario = Ok (rs, ins) w' /\
    length rs = 7 /\ length ins = 7.
Proof.
  destruct (train_phase Ref.softsign
              (column_of (Ref.constant_series 0.5 10)) 10 Ref.scenario)
    as [[rs ins] w'|e w'] eqn:E.
  - exists rs, ins, w'. split; [reflexivity|].
    destruct (C1_recorded_trace_length Ref.softsign _ 10 _ _ _ _ E)
      as (Lr & Li & _).
    split; [exact Lr | exact Li].
  - vm_compute in E. discriminate E.
Defined.

(** The fit on a trace of two states. *)
Lemma C3_two_samples :
  update Ref.inv [1; 2] (map A1 [[0.5%float]; [0.25%float]]) Ref.traced =
  lift (ridge_readout Ref.inv 1e-8%float 2 2
          (mT 2 [[1%float; 0.25%float]; [1%float; 0.75%float]])
          (mT 1 [[0.5%float]; [0.25%float]]))
       Ref.traced.
Proof.
  apply (C3_readout_is_ridge_regression Ref.inv Ref.traced [1; 2]
           [[1%float; 0.25%float]; [1%float; 0.75%float]]
           [[0.5%float]; [0.25%float]] 1).
  - simpl. lia.
  - reflexivity.
  - repeat constructor.
  - repeat constructor.
  - reflexivity.
Defined.

(** A call that returns: five test steps after ten training samples. *)
Lemma C4_five_test_steps :
  exists signal prediction w',
    training_testing Ref.softsign Ref.inv Ref.series 10 15 Ref.small
    = Ok (signal, prediction) w' /\
    length signal = 15 - 10 /\ length prediction = 15 - 10.
Proof.
  destruct (training_testing Ref.softsign Ref.inv Ref.series 10 15 Ref.small)
    as [[signal prediction] w'|e w'] eqn:E.
  - exists signal, prediction, w'. split; [reflexivity|].
    assert (Hn : 10 < 15) by lia.
    destruct (C4_autonomous_test_phase Ref.softsign Ref.inv Ref.series
                10 15 signal prediction Ref.small w' Hn E) as (H1 & H2 & _).
    split; assumption.
  - vm_compute in E. discriminate E.
Defined.

(** One update of the primed instance of three units. *)
Lemma C5_one_update :
  shapes_ok (Ref.primed 3) = true /\
  input_ok (Ref.primed 3) = true /\
  leaky_update Ref.softsign (Ref.primed 3) =
  Ok tt (mkWorld (with_internal (self (Ref.primed 3)) 1)
           (heap (Ref.primed 3) ++
              [A1 (leaky_integration Ref.softsign 0.5%float
                     (rows_of (weight_in (self (Ref.primed 3))))
                     (rows_of (weight (self (Ref.primed 3))))
                     [0.5%float] (repeat 0.5%float 3))])).
Proof.
  split; [reflexivity|]. split; [reflexivity|].
  exact (proj1 (C5_state_update_formula Ref.softsign Ref.max_abs_diag
                  (Ref.primed 3) eq_refl eq_refl)).
Defined.

(** One iteration of the training loop on the primed instance. *)
Lemma C6_one_training_step :
  exists acc' w' t,
    train_body Ref.softsign (column_of Ref.series) 0 ([], []) (Ref.primed 3)
    = Ok acc' w' /\
    nth_error (heap w') (internal (self w')) = Some (A1 (1%float :: t)).
Proof.
  destruct (train_body Ref.softsign (column_of Ref.series) 0 ([], [])
              (Ref.primed 3)) as [acc' w'|e w'] eqn:E.
  - destruct (proj1 (C6_bias_before_record_and_output Ref.softsign
                       (Ref.primed 3) eq_refl eq_refl)
                    _ _ _ _ _ E) as (t & Ht & _).
    exists acc', w', t. split; [reflexivity | exact Ht].
  - vm_compute in E. discriminate E.
Defined.

(** A call with [n == n2] on an instance that trains and fits: the read of
    [test[0]] raises. *)
Example equal_bounds_index_error :
  exists w',
    training_testing Ref.softsign Ref.inv Ref.series 10 10 Ref.small
    = Raise IndexError w'.
Proof. vm_compute. eexists. reflexivity. Qed.

(** C8: with the default [warmup = 100] and [n1 = 50] the call raises
    numpy's [ValueError], not [InsufficientTrainingData]. *)
Lemma C8_not_insufficient_training_data :
  (exists w',
      training_testing Ref.softsign Ref.inv (Ref.constant_series 0.5 60)
                       50 60 (Ref.esn 3) = Raise ValueError w') /\
  ~ (exists w',
        training_testing Ref.softsign Ref.inv (Ref.constant_series 0.5 60)
                         50 60 (Ref.esn 3)
        = Raise InsufficientTrainingData w').
Proof.
  split.
  - vm_compute. eexists. reflexivity.
  - intros [w' H]. vm_compute in H. discriminate H.
Qed.

Lemma C8_default_warmup_fifty_samples :
  exists e w',
    training_testing Ref.softsign Ref.inv (Ref.constant_series 0.5 60)
                     50 60 (Ref.esn 3) = Raise e w' /\
    weight_out (self w') = weight_out (self (Ref.esn 3)).
Proof.
  assert (Hn : 50 <= warmup (self (Ref.esn 3))) by (simpl; lia).
  destruct (C8_short_training_fails Ref.softsign Ref.inv
              (Ref.constant_series 0.5 60) 50 60 (Ref.esn 3) Hn)
    as (e & w' & H1 & H2 & _).
  exists e, w'. split; assumption.
Defined.

(** C9: a nilpotent draw is not refused; the constructor returns with
    [inf] and [NaN] in [W]. *)
Lemma C9_nilpotent_draw_gives_nan :
  Ref.max_abs_diag (A2 2 [[0%float; 0.25%float]; [0%float; 0%float]])
  = Val 0%float /\
  (exists w0,
      __init__ Ref.max_abs_diag 2 1 1 Ref.nilpotent_draws = Val w0 /\
      weight (self w0) = A2 2 [[nan; infinity]; [nan; nan]]) /\
  __init__ Ref.max_abs_diag 2 1 1 Ref.nilpotent_draws <> Exc DegenerateMatrix.
Proof.
  split; [reflexivity|]. split.
  - vm_compute. eexists. split; reflexivity.
  - vm_compute. discriminate.
Qed.

Lemma C9_nilpotent_draw_scaled_by_inf :
  exists w0,
    __init__ Ref.max_abs_diag 2 1 1 Ref.nilpotent_draws = Val w0 /\
    weight (self w0) =
    scale infinity (A2 2 [[0%float; 0.25%float]; [0%float; 0%float]]).
Proof.
  apply (C9_degenerate_matrix_not_refused Ref.max_abs_diag 2 1 1
           Ref.nilpotent_draws
           (A2 2 [[0%float; 0.25%float]; [0%float; 0%float]])).
  - reflexivity.
  - vm_compute. reflexivity.
  - reflexivity.
Defined.

(** C10 on the scenario: the first recorded reference, read at fit time,
    gives the state as step [warmup] left it. *)
Lemma C10_first_recorded_state :
  exists rs ins w' v1,
    train_phase Ref.softsign (column_of (Ref.constant_series 0.5 10)) 10
                Ref.scenario = Ok (rs, ins) w' /\
    nth_error rs 0 = Some (internal (self v1)) /\
    nth_error (heap w') (internal (self v1)) = Some (current v1).
Proof.
  destruct (train_phase Ref.softsign
              (column_of (Ref.constant_series 0.5 10)) 10 Ref.scenario)
    as [[rs ins] w'|e w'] eqn:E.
  - assert (Hi : 0 < length rs).
    { rewrite (proj1 (train_phase_trace_length _ _ _ _ _ _ _ E)).
      cbn [warmup self Ref.scenario with_warmup]. lia. }
    destruct (C10_recorded_states_are_snapshots Ref.softsign _ 10 rs ins
                Ref.scenario w' 0 E Hi)
      as (acc & v & acc1 & v1 & xs & _ & _ & _ & H1 & _ & _ & H2).
    exists rs, ins, w', v1. split; [reflexivity|]. split; assumption.
  - vm_compute in E. discriminate E.
Defined.

(** * Further properties of the code *)

(** ** Loops over a plain result *)



(** ** Indexing with Python integers *)

Lemma py_index_natural (n i : nat) :
  i < n -> py_index n (Z.of_nat i) = Val i.
Proof.
  intros H. unfold py_index.
  destruct (Z.ltb_spec (Z.of_nat i) (- Z.of_nat n)); [lia|].
  destruct (Z.ltb_spec (Z.of_nat i) 0); [lia|].
  destruct (Z.ltb_spec (Z.of_nat i) (Z.of_nat n)); [|lia].
  now rewrite Nat2Z.id.
Qed.

Lemma py_index_cases (n : nat) (k : Z) :
  (py_index n k = Exc IndexError /\ (k < - Z.of_nat n \/ Z.of_nat n <= k)%Z) \/
  (exists j, py_index n k = Val j /\ j < n /\
             (Z.of_nat j = k \/ (k < 0 /\ Z.of_nat j = Z.of_nat n + k))%Z).
Proof.
  unfold py_index.
  destruct (Z.ltb_spec k (- Z.of_nat n)); [left; split; [reflexivity | lia]|].
  destruct (Z.ltb_spec k 0).
  - right. exists (Z.to_nat (Z.of_nat n + k)). split; [reflexivity|]. lia.
  - destruct (Z.ltb_spec k (Z.of_nat n)).
    + right. exists (Z.to_nat k). split; [reflexivity|]. lia.
    + left. split; [reflexivity | lia].
Qed.

Lemma length_update_nth {A} (n : nat) (x : A) (l : list A) :
  length (update_nth n x l) = length l.
Proof.
  revert n. induction l as [|h l IH]; intros [|n]; simpl; auto.
Qed.



Section MackeyGlassProofs.

Variable pow : float -> Z -> float.
Variables a b c : float.
Variables d e : Z.

(** One iteration on an array of [N] entries, for [i + 1 < N]. *)
Lemma mackey_glass_step_cases (N i : nat) (y : list float) :
  length y = N -> i + 1 < N ->
  (mackey_glass_step pow a b c d e i y = Exc IndexError /\
   (Z.of_nat i - d < - Z.of_nat N \/ Z.of_nat N <= Z.of_nat i - d)%Z) \/
  (exists j,
      j < N /\
      (Z.of_nat j = Z.of_nat i - d \/
       (Z.of_nat i - d < 0 /\ Z.of_nat j = Z.of_nat N + (Z.of_nat i - d)))%Z /\
      mackey_glass_step pow a b c d e i y =
      Val (update_nth (i + 1)
             (c * nth i y 0 + (a * nth j y 0) / (b + pow (nth j y 0) e))%float
             y)).
Proof.
  intros Hy Hi. unfold mackey_glass_step, item, setitem. rewrite Hy.
  rewrite py_index_natural by lia. cbn [rbind].
  destruct (py_index_cases N (Z.of_nat i - d)) as [[E H]|(j & E & Hj & Hz)].
  - left. rewrite E. auto.
  - right. exists j. rewrite E. cbn [rbind].
    replace (Z.of_nat i + 1)%Z with (Z.of_nat (i + 1)) by lia.
    rewrite py_index_natural by lia. auto.
Qed.




(** What a loop of [mackey_glass] over the steps [l] gives on an array of
    [N] entries: a value when every index [i - d] is within the array, and
    [IndexError] otherwise. *)
Lemma mackey_glass_loop_outcome (N : nat) (l : list nat) (y : list float) :
  length y = N ->
  (forall i, In i l -> i + 1 < N) ->
  match for_result (mackey_glass_step pow a b c d e) l y with
  | Val y' =>
      length y' = N /\
      forall i, In i l -> (- Z.of_nat N <= Z.of_nat i - d < Z.of_nat N)%Z
  | Exc err =>
      err = IndexError /\
      exists i, In i l /\
                (Z.of_nat i - d < - Z.of_nat N \/ Z.of_nat N <= Z.of_nat i - d)%Z
  end.
Proof.
  revert y. induction l as [|i l IH]; intros y Ly Hl; simpl.
  - split; [exact Ly | intros i []].
  - destruct (mackey_glass_step_cases N i y Ly) as [[E Hbad]|(j & Hj & Hz & E)];
      [apply Hl; left; reflexivity | |]; rewrite E; simpl.
    + split; [reflexivity|]. exists i. split; [left; reflexivity | exact Hbad].
    + specialize (IH (update_nth (i + 1)
                        (c * nth i y 0
                         + (a * nth j y 0) / (b + pow (nth j y 0) e))%float y)).
      rewrite length_update_nth in IH. specialize (IH Ly).
      destruct (for_result _ l _) as [y'|err].
      * destruct IH as [Ly' Hall]; [intros; apply Hl; right; assumption|].
        split; [exact Ly'|]. intros i' [<-|Hi']; [lia | apply Hall, Hi'].
      * destruct IH as [He (i' & Hi' & Hbad)];
          [intros; apply Hl; right; assumption|].
        split; [exact He|]. exists i'. split; [right; exact Hi' | exact Hbad].
Qed.


End MackeyGlassProofs.

Section TrainingSet.

Variable pow : float -> Z -> float.
Variable split_sections : list float -> nat -> nat -> result ndarray.

(** X3. [training_set(N)] needs at least 23 samples: for [2 <= N < 23] the
    generator, called with the delay [d = 23], reads outside its array at
    the first step and the method ends in [IndexError], whatever the
    instance. *)
Theorem X3_training_set_needs_23_samples (dim N : nat) :
  2 <= N -> N < 23 ->
  training_set pow split_sections dim N = Exc IndexError.
Proof.
  intros H2 H23. unfold training_set, training_series, mackey_glass.
  cbv zeta. rewrite repeat_length.
  pose proof (mackey_glass_loop_outcome pow 0.2%float 1%float 0.9%float 23 10
                N (seq 0 (N - 1)) (repeat 0.1%float N) (repeat_length _ _))
    as H.
  destruct (for_result _ _ _) as [y|err].
  - destruct H as [_ Hall]; [intros i Hi; apply in_seq in Hi; lia|].
    pose proof (Hall 0) as A. rewrite in_seq in A. lia.
  - destruct H as [-> _]; [intros i Hi; apply in_seq in Hi; lia|].
    reflexivity.
Qed.

End TrainingSet.

(** ** The two slices of the series *)


Lemma getitem_column (l : list float) (i : nat) :
  getitem (column_of l) i =
  if i <? length l then Val (A1 [nth i l 0%float]) else Exc IndexError.
Proof.
  unfold column_of. cbn [getitem]. rewrite nth_error_map.
  destruct (Nat.ltb_spec i (length l)) as [H|H].
  - rewrite (nth_error_nth' l 0%float H). reflexivity.
  - apply nth_error_None in H. rewrite H. reflexivity.
Qed.



(** ** Calls without effect *)

Lemma pure_ret {A} (a : A) : pure_call (ret a).
Proof. intros w. reflexivity. Qed.

Lemma pure_lift {A} (r : result A) : pure_call (lift r).
Proof. intros w. unfold lift. destruct r; reflexivity. Qed.

Lemma pure_get_self : pure_call get_self.
Proof. intros w. reflexivity. Qed.

Lemma pure_load (l : loc) : pure_call (load l).
Proof. intros w. unfold load. destruct (nth_error (heap w) l); reflexivity. Qed.

Lemma pure_bind {A B} (m : M A) (k : A -> M B) :
  pure_call m -> (forall a, pure_call (k a)) -> pure_call (bind m k).
Proof.
  intros Hm Hk w. unfold bind. specialize (Hm w).
  destruct (m w) as [a w1|e w1]; [|exact Hm]. subst w1. apply Hk.
Qed.

Lemma pure_load_all (ls : list loc) : pure_call (load_all ls).
Proof.
  induction ls as [|l ls IH]; simpl; [apply pure_ret|].
  apply pure_bind; [apply pure_load | intros a].
  apply pure_bind; [exact IH | intros r; apply pure_ret].
Qed.

Create HintDb pure.
#[local] Hint Resolve pure_ret pure_lift pure_get_self pure_load
  pure_load_all : pure.
#[local] Hint Extern 2 (pure_call (bind _ _)) =>
  apply pure_bind; [|intros] : pure.

Section Purity.

Variable tanh : float -> float.
Variable inv : ndarray -> result ndarray.

(** X6. The four forward methods only read: [forward_input],
    [forward_internal], [forward] and [forward_out] leave every attribute
    and every array as they were, whether they return or raise. *)
Theorem X6_forward_methods_only_read :
  pure_call forward_input /\ pure_call forward_internal /\
  pure_call (forward tanh) /\ pure_call forward_out.
Proof.
  unfold forward, forward_input, forward_internal, forward_out.
  repeat split; auto 10 with pure.
Qed.

(** X7. [update] computes the new readout without installing it: the call
    changes neither [self.weight_out] nor anything else, whether it returns
    or raises; the assignment is left to the caller. *)
Theorem X7_update_only_reads (rs : list loc) (ins : list ndarray) :
  pure_call (update inv rs ins).
Proof. unfold update. auto 20 with pure. Qed.

End Purity.

(** ** Computations that leave the configuration alone *)

Lemma config_ret {A} (a : A) : keeps_config (ret a).
Proof. intros w. reflexivity. Qed.

Lemma config_pure {A} (m : M A) : pure_call m -> keeps_config m.
Proof.
  intros H w. specialize (H w). destruct (m w); now subst.
Qed.

Lemma config_alloc (a : ndarray) : keeps_config (alloc a).
Proof. intros w. reflexivity. Qed.

Lemma config_write (l : loc) (a : ndarray) : keeps_config (write l a).
Proof. intros w. reflexivity. Qed.

Lemma config_set_input (a : ndarray) : keeps_config (set_input a).
Proof. intros w. reflexivity. Qed.

Lemma config_set_output (a : ndarray) : keeps_config (set_output a).
Proof. intros w. reflexivity. Qed.

Lemma config_set_weight_out (a : ndarray) : keeps_config (set_weight_out a).
Proof. intros w. reflexivity. Qed.

Lemma config_set_internal (l : loc) : keeps_config (set_internal l).
Proof. intros w. reflexivity. Qed.

Lemma config_bind {A B} (m : M A) (k : A -> M B) :
  keeps_config m -> (forall a, keeps_config (k a)) -> keeps_config (bind m k).
Proof.
  intros Hm Hk w. unfold bind. specialize (Hm w).
  destruct (m w) as [a w1|e w1]; [|exact Hm].
  specialize (Hk a w1). destruct (k a w1); congruence.
Qed.

Lemma config_for_each {A} (body : nat -> A -> M A) (l : list nat) :
  (forall i a, keeps_config (body i a)) ->
  forall acc, keeps_config (for_each body l acc).
Proof.
  intros Hb. induction l as [|i l IH]; intros acc; simpl.
  - apply config_ret.
  - apply config_bind; [apply Hb | exact IH].
Qed.

Create HintDb config.
#[local] Hint Resolve config_ret config_alloc config_write config_set_input
  config_set_output config_set_weight_out config_set_internal : config.
#[local] Hint Extern 1 (keeps_config (lift _)) =>
  apply config_pure, pure_lift : config.
#[local] Hint Extern 1 (keeps_config get_self) =>
  apply config_pure, pure_get_self : config.
#[local] Hint Extern 1 (keeps_config (load _)) =>
  apply config_pure, pure_load : config.
#[local] Hint Extern 2 (keeps_config (bind _ _)) =>
  apply config_bind; [|intros] : config.

Section Configuration.

Variable tanh : float -> float.
Variable inv : ndarray -> result ndarray.

Lemma config_train_body (train : ndarray) (i : nat)
      (acc : list loc * list ndarray) :
  keeps_config (train_body tanh train i acc).
Proof.
  unfold train_body, leaky_update, forward, forward_input, forward_internal,
    bias, store_item0, record_and_force.
  auto 20 with config.
Qed.

Lemma config_test_body (test : ndarray) (i : nat)
      (acc : list ndarray * list ndarray) :
  keeps_config (test_body tanh test i acc).
Proof.
  unfold test_body, leaky_update, forward, forward_input, forward_internal,
    bias, store_item0, predict_and_feed, forward_out.
  auto 30 with config.
Qed.

(** X8. A call of [training_testing] never touches the configuration: the
    radius, the leak rate, the warmup length, the three dimensions, [W_in]
    and [W] are the same after the call as before it, whether the call
    returns or raises.  Only the input, the output, the internal state and
    [W_out] are assigned. *)
Theorem X8_training_testing_keeps_config
        (data : list float) (n1 n2 : nat) :
  keeps_config (training_testing tanh inv data n1 n2).
Proof.
  unfold training_testing, train_test_mackey_glass_npy.
  apply config_bind.
  - unfold train_phase, train_steps, for_range.
    apply config_bind; [auto with config | intros t0].
    apply config_bind; [auto with config | intros _].
    apply config_for_each. intros. apply config_train_body.
  - intros [rs ins]. apply config_bind.
    + apply config_pure. unfold update. auto 20 with pure.
    + intros W. apply config_bind; [auto with config | intros _].
      apply config_bind; [|intros [res sig]; apply config_ret].
      unfold test_phase, for_range.
      apply config_bind; [auto with config | intros t0].
      apply config_bind; [auto with config | intros _].
      apply config_for_each. intros. apply config_test_body.
Qed.

(** X9. An instance with more than one input unit cannot be trained on the
    series: its rows have one entry, so when [W_in] has [du <> 1] columns
    the product [W_in @ u] of the first step raises [ValueError].  The call
    ends there, having assigned [self.input] only: no state was computed
    and the store is as before. *)
Theorem X9_several_input_units_raise
        (data : list float) (n1 n2 : nat) (w : world) (du : nat) (rows : matrix) :
  weight_in (self w) = A2 du rows ->
  du <> 1 ->
  internal (self w) < length (heap w) ->
  2 <= n1 ->
  1 <= length data ->
  training_testing tanh inv data n1 n2 w =
  Raise ValueError
        (mkWorld (with_input (self w) (A1 [nth 0 data 0%float])) (heap w)).
Proof.
  intros HW Hdu Hint Hn Hdata.
  destruct data as [|x data]; [simpl in Hdata; lia|].
  destruct n1 as [|[|n1]]; try lia.
  destruct (nth_error (heap w) (internal (self w))) as [cur|] eqn:Hcur;
    [|apply nth_error_None in Hcur; lia].
  unfold training_testing, train_test_mackey_glass_npy, train_phase,
    train_steps, for_range.
  cbn [firstn column_of map getitem nth_error Nat.sub seq for_each nth].
  unfold train_body, leaky_update, forward, forward_input.
  unfold bind, lift, set_input, get_self, load.
  cbn [self heap internal with_input weight_in input].
  rewrite Hcur. cbn [self heap internal with_input weight_in input].
  rewrite HW. cbn [matmul length].
  destruct (Nat.eqb_spec du 1); [contradiction | reflexivity].
Qed.

End Configuration.

(** ** The fit on a well-formed trace *)

Section Fit.

Variable inv : ndarray -> result ndarray.

(** The fit on [kx >= 1] states of [dim_N_x] entries and [ky >= 1] targets
    of [dy] entries: the product [y @ x.T] is refused when [ky <> kx];
    otherwise a matrix of [dim_N_x] rows and columns is handed to the
    inversion and the product of a [(dy, dim_N_x)] matrix and its result
    is returned. *)
Lemma update_on_trace (w : world) (rs : list loc) (trace targets : matrix)
      (dy : nat) :
  let d := dim_N_x (self w) in
  1 <= length trace -> 1 <= length targets ->
  Forall (fun r => length r = d) trace ->
  Forall (fun r => length r = dy) targets ->
  load_all rs w = Ok (map A1 trace) w ->
  exists G YX,
    length G = d /\ length YX = dy /\
    update inv rs (map A1 targets) w =
    if length targets =? length trace
    then lift (rbind (inv (A2 d G)) (fun Gi => matmul (A2 d YX) Gi)) w
    else Raise ValueError w.
Proof.
  intros d Hk Hk' Hd Hy Hload.
  exists (madd (mmul (columns d trace)
                     (columns (length trace) (columns d trace)) d)
               (mscale 1e-8%float (identity d))),
         (mmul (columns dy targets)
               (columns (length trace) (columns d trace)) d).
  split.
  { unfold madd, mmul, mscale, identity.
    rewrite length_map2, !length_map, length_columns, length_seq. lia. }
  split. { unfold mmul. now rewrite length_map, length_columns. }
  unfold update. unfold bind at 1. unfold get_self.
  rewrite (bind_Ok _ _ _ _ _ Hload).
  rewrite (asarray_vectors d trace Hk Hd).
  rewrite (asarray_vectors dy targets Hk' Hy).
  unfold bind, lift, ret. cbn [rbind transpose matmul].
  rewrite !length_columns. fold d.
  destruct (length targets =? length trace); [|reflexivity].
  rewrite Nat.eqb_refl.
  fold (mmul (columns dy targets)
             (columns (length trace) (columns d trace)) d).
  fold (mmul (columns d trace) (columns (length trace) (columns d trace)) d).
  unfold add, scale, eye. cbn [amap].
  fold (identity d). fold (mscale 1e-8%float (identity d)).
  rewrite broadcast_matrices.
  - fold (madd (mmul (columns d trace)
                     (columns (length trace) (columns d trace)) d)
               (mscale 1e-8%float (identity d))).
    destruct (inv _) as [Gi|e]; [|reflexivity].
    destruct Gi as [x|v|c2 r2]; simpl; try reflexivity;
      destruct (d =? _); reflexivity.
  - unfold mmul, mscale, identity.
    now rewrite !length_map, length_columns, length_seq.
  - apply Forall_forall. intros r Hr. unfold mmul in Hr.
    apply in_map_iff in Hr. destruct Hr as (r0 & <- & _).
    now rewrite length_map, length_columns.
  - apply Forall_forall. intros r Hr. unfold mscale, identity in Hr.
    apply in_map_iff in Hr. destruct Hr as (r0 & <- & Hr0).
    apply in_map_iff in Hr0. destruct Hr0 as (i & <- & _).
    unfold vscale. now rewrite !length_map, length_seq.
Qed.

(** X10. The fit refuses traces of different lengths: with [kx >= 1]
    recorded states and [ky >= 1] targets, [ky <> kx], the product
    [y @ x.T] raises [ValueError] before anything is inverted, and nothing
    is changed. *)
Theorem X10_update_sample_counts_differ
        (w : world) (rs : list loc) (trace targets : matrix) (dy : nat) :
  1 <= length trace -> 1 <= length targets ->
  length targets <> length trace ->
  Forall (fun r => length r = dim_N_x (self w)) trace ->
  Forall (fun r => length r = dy) targets ->
  load_all rs w = Ok (map A1 trace) w ->
  update inv rs (map A1 targets) w = Raise ValueError w.
Proof.
  intros Hk Hk' Hne Hd Hy Hload.
  destruct (update_on_trace w rs trace targets dy Hk Hk' Hd Hy Hload)
    as (G & YX & _ & _ & ->).
  destruct (Nat.eqb_spec (length targets) (length trace));
    [contradiction | reflexivity].
Qed.

(** X11. On [k >= 1] states and as many targets of [dy] entries, the fit
    can only fail in the inversion: when [np.linalg.inv] gives back a
    square array of the size of its argument, [update] returns a readout
    of shape [(dy, dim_N_x)]; otherwise it ends with the exception that
    the inversion raised.  In both cases nothing is changed. *)
Theorem X11_update_shape_or_inversion_error
        (w : world) (rs : list loc) (trace targets : matrix) (dy : nat) :
  let d := dim_N_x (self w) in
  (forall g G, is_square d g = true -> inv g = Val G ->
               is_square d G = true) ->
  1 <= length trace ->
  length targets = length trace ->
  Forall (fun r => length r = d) trace ->
  Forall (fun r => length r = dy) targets ->
  load_all rs w = Ok (map A1 trace) w ->
  match update inv rs (map A1 targets) w with
  | Ok W w' => w' = w /\ has_shape dy d W = true
  | Raise e w' =>
      w' = w /\ exists g, is_square d g = true /\ inv g = Exc e
  end.
Proof.
  intros d Hinv Hk Ht Hd Hy Hload.
  destruct (update_on_trace w rs trace targets dy Hk) as (G & YX & LG & LY & ->);
    auto; [lia|].
  rewrite Ht, Nat.eqb_refl. fold d.
  assert (Hsq : is_square d (A2 d G) = true)
    by (cbn [is_square]; rewrite LG, !Nat.eqb_refl; reflexivity).
  destruct (inv (A2 d G)) as [Gi|e] eqn:E; cbn [rbind lift].
  - specialize (Hinv _ _ Hsq E). destruct Gi as [|?|c r2]; try discriminate.
    cbn [is_square] in Hinv. apply andb_prop in Hinv. destruct Hinv as [Hc Hr].
    apply Nat.eqb_eq in Hc, Hr. subst c. cbn [matmul]. rewrite Hr, Nat.eqb_refl.
    split; [reflexivity|]. apply has_shape_intro.
    + now rewrite length_map.
    + apply Forall_forall. intros r Hin. apply in_map_iff in Hin.
      destruct Hin as (r0 & <- & _). now rewrite length_map, length_columns.
  - split; [reflexivity|]. exists (A2 d G). auto.
Qed.

End Fit.

(** ** Whole runs *)

Lemma bind_Raise {A B} (m : M A) (k : A -> M B) (w w' : world) (e : exn) :
  m w = Raise e w' -> bind m k w = Raise e w'.
Proof. unfold bind. intros ->. reflexivity. Qed.

Section Runs.

Variable tanh : float -> float.
Variable inv : ndarray -> result ndarray.

(** X12. Teacher forcing: in a training phase on the series [l] the input
    of step [i] is [l[i]], the target recorded at a step is the input of
    that same step, so the target trace is [l[warmup .. n1 - 2]] as rows,
    and the phase ends with [l[n1 - 1]] as the input. *)
Theorem X12_targets_are_current_inputs
        (l : list float) (n1 : nat) (rs : list loc) (ins : list ndarray)
        (w w' : world) :
  train_phase tanh (column_of l) n1 w = Ok (rs, ins) w' ->
  ins = map (fun i => A1 [nth i l 0%float])
            (seq (warmup (self w)) (n1 - 1 - warmup (self w))) /\
  input (self w') = A1 [nth (n1 - 1) l 0%float].
Proof.
  intros H. unfold train_phase in H. apply train_steps_inv in H.
  destruct H as (t0 & Ht0 & H). apply getitem_rows in Ht0.
  destruct Ht0 as (x0 & Hx0 & ->).
  apply (for_range_invariant
           (fun k acc v =>
              warmup (self v) = warmup (self w) /\
              input (self v) = A1 [nth k l 0%float] /\
              snd acc = map (fun i => A1 [nth i l 0%float])
                            (seq (warmup (self w)) (k - warmup (self w)))))
    in H.
  - destruct H as (_ & Hin & Hins). split; [exact Hins | exact Hin].
  - cbn [self warmup input with_input snd]. split; [reflexivity|]. split.
    + f_equal. f_equal. symmetry. apply nth_error_nth. exact Hx0.
    + now rewrite Nat.sub_0_l.
  - intros k a v a' v' _ (Hw & Hin & Hacc) Hb.
    apply train_body_frame in Hb.
    destruct Hb as (r & c & u & _ & Hu & -> & ->).
    apply getitem_rows in Hu. destruct Hu as (x & Hx & ->).
    cbn [self warmup input with_input with_internal]. rewrite Hw.
    split; [reflexivity|]. split.
    + rewrite Nat.add_1_r in Hx. f_equal. f_equal. symmetry.
      apply nth_error_nth. exact Hx.
    + destruct (Nat.leb_spec (warmup (self w)) k) as [Hle|Hlt]; cbn [snd].
      * replace (S k - warmup (self w)) with (S (k - warmup (self w))) by lia.
        rewrite seq_S, map_app, Hacc, Hin. cbn [map].
        replace (warmup (self w) + (k - warmup (self w))) with k by lia.
        reflexivity.
      * replace (S k - warmup (self w)) with 0 by lia.
        replace (k - warmup (self w)) with 0 in Hacc by lia. exact Hacc.
Qed.

(** What the test loop does to the store and the readout: one cell per
    step, the last one being the internal state, and [W_out] untouched. *)
Lemma test_loop_store (test : ndarray) (n : nat)
      (acc acc' : list ndarray * list ndarray) (v v' : world) :
  for_range n (test_body tanh test) acc v = Ok acc' v' ->
  weight_out (self v') = weight_out (self v) /\
  exists ext, heap v' = heap v ++ ext /\ length ext = n /\
              (1 <= n -> internal (self v') + 1 = length (heap v')).
Proof.
  apply (for_range_invariant
           (fun k _ u =>
              weight_out (self u) = weight_out (self v) /\
              exists ext, heap u = heap v ++ ext /\ length ext = k /\
                          (1 <= k -> internal (self u) + 1 = length (heap u)))).
  - split; [reflexivity|]. exists []. rewrite app_nil_r.
    repeat split; auto. intros H; inversion H.
  - intros k a u a' u' _ (Hw & ext & He & Le & _) Hb.
    apply test_body_frame in Hb.
    destruct Hb as (r & c & o & o0 & ti & ti0 & _ & _ & _ & _ & _ & -> & _).
    cbn [self heap weight_out internal with_input with_output with_internal].
    split; [exact Hw|]. exists (ext ++ [c]).
    rewrite He, <- app_assoc, !length_app. cbn [length].
    repeat split; lia.
Qed.


(** X14. What a call that returns has done: the readout installed is the
    one the fit returned for the trace of the training phase; the test
    phase went on from the state that the training left, without a reset;
    every step added one cell to the store, [n1 - 1] in training and
    [n2 - n1] in test, and the internal state is the last one. *)
Theorem X14_return_installs_fit_and_continues
        (data : list float) (n1 n2 : nat) (signal prediction : list ndarray)
        (w w' : world) :
  training_testing tanh inv data n1 n2 w = Ok (signal, prediction) w' ->
  exists rs ins v W ext,
    train_phase tanh (column_of (firstn n1 data)) n1 w = Ok (rs, ins) v /\
    update inv rs ins v = Ok W v /\
    weight_out (self w') = W /\
    length (heap v) = length (heap w) + (n1 - 1) /\
    heap w' = heap v ++ ext /\ length ext = n2 - n1 /\
    internal (self w') + 1 = length (heap w').
Proof.
  intros H. apply training_testing_inv in H.
  destruct H as (rs & ins & v & W & v' & Ht & Hu & Hp).
  pose proof (update_pure _ _ _ _ _ _ Hu) as ->.
  unfold train_test_mackey_glass_npy in Ht, Hp. cbn [fst snd] in Ht, Hp.
  apply test_phase_inv in Hp. destruct Hp as (t0 & Ht0 & Hrun).
  rewrite getitem_column, length_firstn, length_skipn in Ht0.
  destruct (Nat.ltb_spec 0 (Nat.min (n2 - n1) (length data - n1)));
    [|discriminate].
  apply test_loop_store in Hrun. destruct Hrun as (Hw & ext & He & Le & Hi).
  cbn [self heap weight_out with_input with_weight_out] in Hw, He.
  exists rs, ins, v, W, ext.
  split; [exact Ht|]. split; [exact Hu|]. split; [exact Hw|].
  split; [|split; [exact He|split; [exact Le|apply Hi; lia]]].
  unfold train_phase in Ht. apply train_steps_inv in Ht.
  destruct Ht as (u0 & _ & Ht). apply train_loop_invariant in Ht.
  destruct Ht as (_ & (e & -> & Lext) & _). rewrite length_app.
  cbn [heap]. lia.
Qed.

(** A loop that fails at iteration [n] after [n] good iterations. *)
Lemma for_range_raise {A} (body : nat -> A -> M A) (n m : nat)
      (acc acc1 : A) (w v v1 : world) (e : exn) :
  for_range n body acc w = Ok acc1 v ->
  body n acc1 v = Raise e v1 ->
  n < m ->
  for_range m body acc w = Raise e v1.
Proof.
  intros H1 H2 Hlt. unfold for_range in *.
  replace m with (n + S (m - S n)) by lia.
  rewrite seq_app, for_each_app, (bind_Ok _ _ _ _ _ H1).
  cbn [seq for_each Nat.add]. apply bind_Raise. exact H2.
Qed.

Lemma train_body_runs_out (l : list float) (i : nat)
      (acc : list loc * list ndarray) (w : world) :
  shapes_ok w = true -> input_ok w = true ->
  length l <= i + 1 ->
  train_body tanh (column_of l) i acc w =
  Raise IndexError
        (mkWorld (with_internal (self w) (length (heap w)))
                 (heap w ++ [A1 (next_state tanh w)])).
Proof.
  intros Hs Hi Hx. unfold train_body. rewrite step_bind.
  rewrite (bind_Ok _ _ _ _ _ (step_ok tanh w Hs Hi)).
  unfold record_and_force, bind, get_self, lift.
  cbn [getitem column_of]. rewrite nth_error_map.
  rewrite (proj2 (nth_error_None _ _) Hx). reflexivity.
Qed.

Lemma test_body_runs_out (l : list float) (i : nat)
      (acc : list ndarray * list ndarray) (w : world) :
  shapes_ok w = true -> input_ok w = true -> readout_ok w = true ->
  length l <= i ->
  exists y,
    test_body tanh (column_of l) i acc w =
    Raise IndexError
          (mkWorld (with_output (with_internal (self w) (length (heap w)))
                                (A1 [y]))
                   (heap w ++ [A1 (next_state tanh w)])).
Proof.
  intros Hs Hi Hr Hx. destruct (readout_ok_inv _ Hr) as (wo & Hwo).
  exists (dot wo (next_state tanh w)).
  unfold test_body. rewrite step_bind.
  rewrite (bind_Ok _ _ _ _ _ (step_ok tanh w Hs Hi)).
  unfold predict_and_feed, forward_out, bind, get_self, load, lift,
    set_output, set_input, ret.
  cbn [self heap internal with_internal weight_out].
  rewrite nth_error_last, Hwo. cbn [np_dot matmul].
  rewrite (length_next_state tanh w Hs), Nat.eqb_refl.
  cbn [map getitem nth_error column_of]. rewrite nth_error_map.
  rewrite (proj2 (nth_error_None _ _) Hx). reflexivity.
Qed.

Lemma config_train_phase (train : ndarray) (n1 : nat) :
  keeps_config (train_phase tanh train n1).
Proof.
  unfold train_phase, train_steps, for_range.
  apply config_bind; [auto with config | intros t0].
  apply config_bind; [auto with config | intros _].
  apply config_for_each. intros. apply config_train_body.
Qed.

(** X15. A series shorter than [n1]: on a well-shaped instance the
    training loop makes [len(data)] state updates, then the read of
    [train[i + 1]] behind the last sample raises [IndexError]; the fit is
    never reached and [W_out] is as before. *)
Theorem X15_series_shorter_than_training
        (data : list float) (n1 n2 : nat) (w : world) :
  shapes_ok w = true ->
  1 <= length data -> length data < n1 ->
  exists w',
    training_testing tanh inv data n1 n2 w = Raise IndexError w' /\
    weight_out (self w') = weight_out (self w) /\
    length (heap w') = length (heap w) + length data.
Proof.
  intros Hs Hlo Hhi.
  unfold training_testing, train_test_mackey_glass_npy.
  rewrite (firstn_all2 data) by lia.
  destruct (nth_error data 0) as [x0|] eqn:H0;
    [|apply nth_error_None in H0; lia].
  pose proof (getitem_column_of _ _ _ H0) as Hg0.
  destruct (train_steps_ok tanh data (length data - 1) w Hs)
    as (acc & v & Hrun & Hsv & Hiv); [lia|].
  pose proof (keeps_train_phase tanh (column_of data) (length data) w) as Hk.
  unfold train_phase in Hk. rewrite Hrun in Hk.
  rewrite (train_steps_intro tanh _ _ _ w Hg0) in Hrun.
  pose proof (train_loop_invariant tanh _ _ _ _ _ Hrun)
    as (_ & (ext & He & Le) & _).
  cbn [heap] in He.
  eexists. split; [|split].
  - apply bind_Raise. unfold train_phase.
    rewrite (train_steps_intro tanh _ _ _ w Hg0).
    apply (for_range_raise _ _ _ _ _ _ _ _ _ Hrun); [|lia].
    apply (train_body_runs_out _ _ _ _ Hsv Hiv). lia.
  - cbn [self weight_out with_internal]. exact Hk.
  - cbn [heap]. rewrite He, !length_app, Le. cbn [length]. lia.
Qed.

Lemma test_phase_runs_out (l : list float) (n : nat) (w : world) :
  shapes_ok w = true -> readout_ok w = true ->
  1 <= length l -> length l < n ->
  exists w',
    test_phase tanh (column_of l) n w = Raise IndexError w' /\
    weight_out (self w') = weight_out (self w) /\
    length (heap w') = length (heap w) + length l + 1.
Proof.
  intros Hs Hr Hl Hn.
  destruct (nth_error l 0) as [x0|] eqn:H0;
    [|apply nth_error_None in H0; lia].
  unfold test_phase, bind at 1, lift. rewrite (getitem_column_of _ _ _ H0).
  unfold bind at 1, set_input.
  destruct (for_range_progress
              (fun k _ v => shapes_ok v = true /\ input_ok v = true
                            /\ readout_ok v = true
                            /\ weight_out (self v) = weight_out (self w)
                            /\ length (heap v) = length (heap w) + k)
              (test_body tanh (column_of l)) (length l) ([], [])
              (mkWorld (with_input (self w) (A1 [x0])) (heap w)))
    as (acc & v & H & Hsv & Hiv & Hrv & Hwv & Hlv).
  - cbn [self heap weight_out with_input].
    repeat split; try (destruct w; assumption). lia.
  - intros k a v Hk (Hsv & Hiv & Hrv & Hwv & Hlv).
    destruct (nth_error l k) as [x|] eqn:Hx;
      [|apply nth_error_None in Hx; lia].
    destruct (test_body_ok tanh _ _ a _ _ Hsv Hiv Hrv Hx) as (y & Hy).
    eexists _, _. split; [exact Hy|].
    split; [apply (step_shapes_ok tanh v Hsv)|].
    split; [reflexivity|]. split; [exact Hrv|].
    cbn [self heap weight_out with_input with_output with_internal].
    split; [exact Hwv|]. rewrite length_app, Hlv. cbn [length]. lia.
  - destruct (test_body_runs_out l (length l) acc v Hsv Hiv Hrv (le_n _))
      as (y & Hy).
    eexists. split; [|split].
    + apply (for_range_raise _ _ _ _ _ _ _ _ _ H Hy Hn).
    + cbn [self weight_out with_output with_internal]. exact Hwv.
    + cbn [heap]. rewrite length_app, Hlv. cbn [length]. lia.
Qed.

(** X16. No rollback: when the series ends between [n1] and [n2], the
    training and the fit complete, the new readout is installed, and the
    test loop raises [IndexError] at the first sample that is missing.
    The instance is left with the fitted [W_out], not with the one it had
    before the call. *)
Theorem X16_series_shorter_than_test_keeps_fit
        (data : list float) (n1 n2 : nat) (rs : list loc) (ins : list ndarray)
        (W : ndarray) (w v : world) :
  shapes_ok w = true ->
  n1 < length data -> length data < n2 ->
  train_phase tanh (column_of (firstn n1 data)) n1 w = Ok (rs, ins) v ->
  update inv rs ins v = Ok W v ->
  has_shape 1 (dim_N_x (self w)) W = true ->
  exists w',
    training_testing tanh inv data n1 n2 w = Raise IndexError w' /\
    weight_out (self w') = W.
Proof.
  intros Hs Hlo Hhi Ht Hu HW.
  assert (Hn1 : 1 <= n1).
  { destruct n1; [|lia]. vm_compute in Ht. discriminate Ht. }
  destruct (train_steps_ok tanh (firstn n1 data) (n1 - 1) w Hs)
    as (acc & v0 & Hrun & Hsv & Hiv).
  { rewrite length_firstn. lia. }
  pose proof Ht as Ht'. unfold train_phase in Ht'. rewrite Ht' in Hrun.
  injection Hrun as <- <-. clear Ht'.
  pose proof (config_train_phase (column_of (firstn n1 data)) n1 w) as Hc.
  rewrite Ht in Hc. unfold config in Hc.
  assert (Hd : dim_N_x (self v) = dim_N_x (self w)) by congruence.
  destruct (test_phase_runs_out (firstn (n2 - n1) (skipn n1 data)) (n2 - n1)
              (mkWorld (with_weight_out (self v) W) (heap v)))
    as (w' & Hp & Hw' & _).
  - destruct v; exact Hsv.
  - unfold readout_ok. cbn [self weight_out with_weight_out dim_N_x].
    rewrite Hd. exact HW.
  - rewrite length_firstn, length_skipn. lia.
  - rewrite length_firstn, length_skipn. lia.
  - exists w'. split; [|exact Hw'].
    unfold training_testing, train_test_mackey_glass_npy.
    rewrite (bind_Ok _ _ _ _ _ Ht). cbn beta iota.
    rewrite (bind_Ok _ _ _ _ _ Hu).
    unfold bind at 1, set_weight_out.
    apply bind_Raise. exact Hp.
Qed.

(** The targets that a training phase on a series records are rows of one
    scalar. *)
Lemma recorded_inputs_are_rows (l : list float) (n1 : nat) (rs : list loc)
      (ins : list ndarray) (w w' : world) :
  train_phase tanh (column_of l) n1 w = Ok (rs, ins) w' ->
  exists targets : matrix,
    ins = map A1 targets /\ Forall (fun r => length r = 1) targets.
Proof.
  intros H. unfold train_phase in H. apply train_steps_inv in H.
  destruct H as (t0 & Ht0 & H). apply getitem_rows in Ht0.
  destruct Ht0 as (x0 & _ & ->).
  apply (for_range_invariant
           (fun _ acc v =>
              (exists u, input (self v) = A1 [u]) /\
              exists targets : matrix,
                snd acc = map A1 targets /\
                Forall (fun r => length r = 1) targets)) in H.
  - apply H.
  - split; [exists x0; reflexivity|]. exists []. split; [reflexivity|constructor].
  - intros k a v a' v' _ ((u0 & Hin) & targets & Hacc & Hall) Hb.
    apply train_body_frame in Hb.
    destruct Hb as (r & c & u & _ & Hu & -> & ->).
    apply getitem_rows in Hu. destruct Hu as (x & _ & ->).
    split; [exists x; reflexivity|].
    destruct (warmup (self v) <=? k); cbn [snd];
      [|exists targets; split; assumption].
    exists (targets ++ [[u0]]). rewrite map_app, Hacc, Hin. split; [reflexivity|].
    apply Forall_app. split; [exact Hall|]. repeat constructor.
Qed.

(** The product of a [(dy, d)] matrix and a square array of size [d]. *)
Lemma fit_product (d dy : nat) (YX : matrix) (Gi : ndarray) :
  is_square d Gi = true -> length YX = dy ->
  exists W, matmul (A2 d YX) Gi = Val W /\ has_shape dy d W = true.
Proof.
  intros Hsq LY. destruct Gi as [|?|c r2]; try discriminate.
  cbn [is_square] in Hsq. apply andb_prop in Hsq. destruct Hsq as [Hc Hr].
  apply Nat.eqb_eq in Hc, Hr. subst c. cbn [matmul]. rewrite Hr, Nat.eqb_refl.
  eexists. split; [reflexivity|]. apply has_shape_intro.
  - now rewrite length_map.
  - apply Forall_forall. intros r Hin. apply in_map_iff in Hin.
    destruct Hin as (r0 & <- & _). now rewrite length_map, length_columns.
Qed.

(** The fit at the end of a training phase that recorded something: either
    a readout of shape [(1, dim_N_x)], or the exception of the inversion
    of a square matrix. *)
Lemma fit_after_training (l : list float) (n1 : nat) (rs : list loc)
      (ins : list ndarray) (w v : world) :
  shapes_ok w = true ->
  (forall g G, is_square (dim_N_x (self w)) g = true -> inv g = Val G ->
               is_square (dim_N_x (self w)) G = true) ->
  warmup (self w) + 2 <= n1 ->
  train_phase tanh (column_of l) n1 w = Ok (rs, ins) v ->
  (exists W, update inv rs ins v = Ok W v /\
             has_shape 1 (dim_N_x (self w)) W = true) \/
  (exists e g, update inv rs ins v = Raise e v /\
               is_square (dim_N_x (self w)) g = true /\ inv g = Exc e).
Proof.
  intros Hs Hinv Hn Ht.
  destruct (train_phase_trace_length _ _ _ _ _ _ _ Ht) as [Lr Li].
  destruct (recorded_inputs_are_rows _ _ _ _ _ _ Ht) as (targets & -> & Hy).
  rewrite length_map in Li.
  pose proof (train_phase_rows tanh _ _ _ _ _ _ Hs Ht) as Hrows.
  pose proof (config_train_phase (column_of l) n1 w) as Hc.
  rewrite Ht in Hc. unfold config in Hc.
  assert (Hd : dim_N_x (self v) = dim_N_x (self w)) by congruence.
  set (trace := map (fun r => vec_of (nth r (heap v) (A1 []))) rs).
  assert (Hload : load_all rs v = Ok (map A1 trace) v).
  { rewrite load_all_ok.
    - f_equal. unfold trace. rewrite map_map. apply map_ext_in.
      intros r Hr. rewrite Forall_forall in Hrows.
      destruct (Hrows r Hr) as (t & Hnth & _).
      rewrite (nth_error_nth _ _ _ Hnth). reflexivity.
    - eapply Forall_impl; [|exact Hrows]. intros r (t & Hnth & _).
      apply nth_error_Some. congruence. }
  assert (Htr : Forall (fun r => length r = dim_N_x (self v)) trace).
  { unfold trace. apply Forall_forall. intros x Hx. apply in_map_iff in Hx.
    destruct Hx as (r & <- & Hr). rewrite Forall_forall in Hrows.
    destruct (Hrows r Hr) as (t & Hnth & Lt).
    rewrite (nth_error_nth _ _ _ Hnth), Hd. exact Lt. }
  assert (Ltr : length trace = length rs) by (unfold trace; apply length_map).
  destruct (update_on_trace inv v rs trace targets 1)
    as (G & YX & LG & LY & ->); auto; try lia.
  replace (length targets =? length trace) with true
    by (symmetry; apply Nat.eqb_eq; lia).
  rewrite Hd in *.
  assert (Hsq : is_square (dim_N_x (self w)) (A2 (dim_N_x (self w)) G) = true)
    by (cbn [is_square]; rewrite LG, !Nat.eqb_refl; reflexivity).
  destruct (inv (A2 (dim_N_x (self w)) G)) as [Gi|e] eqn:E; cbn [rbind lift].
  - left. destruct (fit_product _ _ YX Gi (Hinv _ _ Hsq E) LY) as (W & -> & HW).
    exists W. split; [reflexivity | exact HW].
  - right. exists e, (A2 (dim_N_x (self w)) G). auto.
Qed.

(** X17. With enough data only the inversion can fail.  On a well-shaped
    instance, for [warmup + 2 <= n1 < n2 <= len(data)], and when
    [np.linalg.inv] gives back a square array of the size of its argument:
    either the call returns two lists of [n2 - n1] entries and leaves a
    readout of shape [(1, dim_N_x)], or it ends with the exception that
    the inversion of a square matrix raised and [W_out] is as before. *)
Theorem X17_only_the_inversion_can_fail
        (data : list float) (n1 n2 : nat) (w : world) :
  shapes_ok w = true ->
  (forall g G, is_square (dim_N_x (self w)) g = true -> inv g = Val G ->
               is_square (dim_N_x (self w)) G = true) ->
  warmup (self w) + 2 <= n1 -> n1 < n2 -> n2 <= length data ->
  match training_testing tanh inv data n1 n2 w with
  | Ok (signal, prediction) w' =>
      length signal = n2 - n1 /\ length prediction = n2 - n1 /\
      has_shape 1 (dim_N_x (self w)) (weight_out (self w')) = true
  | Raise e w' =>
      (exists g, is_square (dim_N_x (self w)) g = true /\ inv g = Exc e) /\
      weight_out (self w') = weight_out (self w)
  end.
Proof.
  intros Hs Hinv Hn1 Hn2 Hlen.
  destruct (train_steps_ok tanh (firstn n1 data) (n1 - 1) w Hs)
    as ([rs ins] & v & Ht & Hsv & _).
  { rewrite length_firstn. lia. }
  fold (train_phase tanh (column_of (firstn n1 data)) n1) in Ht.
  destruct (fit_after_training _ _ _ _ _ _ Hs Hinv Hn1 Ht)
    as [(W & Hu & HW) | (e & g & Hu & Hsq & He)].
  - destruct (training_testing_returns tanh inv data n1 n2 w Hs)
      as (signal & prediction & w' & Hrun); try lia.
    { cbn [train_test_mackey_glass_npy fst]. intros rs' ins' v' Ht'.
      rewrite Ht in Ht'. injection Ht' as <- <- <-. eauto. }
    rewrite Hrun. apply training_testing_inv in Hrun.
    destruct Hrun as (rs' & ins' & v' & W' & v'' & Ht' & Hu' & Hp).
    cbn [train_test_mackey_glass_npy fst snd] in Ht', Hp.
    rewrite Ht in Ht'. injection Ht' as <- <- <-.
    rewrite Hu in Hu'. injection Hu' as <- <-.
    apply test_phase_inv in Hp. destruct Hp as (t0 & _ & Hp).
    pose proof (test_loop_store _ _ _ _ _ _ Hp) as (Hw & _).
    cbn [self weight_out with_input with_weight_out] in Hw.
    unfold for_range in Hp. apply test_loop_appends in Hp.
    destruct Hp as (e1 & e2 & H1 & H2 & L1 & L2).
    cbn [fst snd app] in H1, H2. rewrite length_seq in L1, L2.
    rewrite H1, H2, Hw. auto.
  - unfold training_testing, train_test_mackey_glass_npy.
    rewrite (bind_Ok _ _ _ _ _ Ht). cbn beta iota.
    rewrite (bind_Raise _ _ _ _ _ Hu).
    split; [exists g; auto|].
    pose proof (keeps_train_phase tanh (column_of (firstn n1 data)) n1 w) as Hk.
    rewrite Ht in Hk. exact Hk.
Qed.

End Runs.

(** ** The constructor and the first run *)

Section Fresh.

Variable tanh : float -> float.
Variable max_abs_eigvals : ndarray -> result float.

(** X18. A new instance trains on any series.  When the constructor
    returns for [Reservoir(dx, 1, 1)], on draws of the shapes that were
    asked for and whatever their values, the teacher-forced phase on
    [n1 <= len(data)] samples completes and has recorded [n1 - 101] states
    and targets (none for [n1 <= 101]): the warmup is 100 and no step can
    fail. *)
Theorem X18_new_instance_completes_training
        (dx : nat) (rnd : draws) (w0 : world) (data : list float) (n1 : nat) :
  1 <= dx ->
  draws_ok dx 1 1 rnd = true ->
  __init__ max_abs_eigvals dx 1 1 rnd = Val w0 ->
  1 <= n1 -> n1 <= length data ->
  exists rs ins v,
    train_phase tanh (column_of (firstn n1 data)) n1 w0 = Ok (rs, ins) v /\
    length rs = n1 - 101 /\ length ins = n1 - 101 /\
    weight_out (self v) = draw_out rnd.
Proof.
  intros Hdx Hdraws Hinit Hn1 Hlen.
  pose proof (init_shapes_ok max_abs_eigvals dx 1 rnd w0 Hdx Hdraws Hinit) as Hs.
  destruct (train_steps_ok tanh (firstn n1 data) (n1 - 1) w0 Hs)
    as ([rs ins] & v & Ht & _).
  { rewrite length_firstn. lia. }
  fold (train_phase tanh (column_of (firstn n1 data)) n1) in Ht.
  assert (Hw0 : warmup (self w0) = 100 /\ weight_out (self w0) = draw_out rnd).
  { unfold __init__ in Hinit. cbn [Nat.eqb negb] in Hinit. cbv zeta in Hinit.
    destruct (imultiply _ _) as [m|]; [|discriminate]. cbn [rbind] in Hinit.
    destruct (max_abs_eigvals m) as [rho|]; [|discriminate].
    cbn [rbind] in Hinit. injection Hinit as <-. split; reflexivity. }
  destruct Hw0 as [Hwarm Hout].
  destruct (train_phase_trace_length _ _ _ _ _ _ _ Ht) as [Lr Li].
  pose proof (keeps_train_phase tanh (column_of (firstn n1 data)) n1 w0) as Hk.
  rewrite Ht in Hk.
  exists rs, ins, v. rewrite Lr, Li, Hwarm, Hk, Hout.
  repeat split; try lia. exact Ht.
Qed.

End Fresh.

Section ConstructorOutcome.

Variable max_abs_eigvals : ndarray -> result float.

(** X19. The two ways the constructor can fail.  On draws of the shapes
    asked for, [Reservoir(dx, dy, du)] raises [ValueError] when
    [dy <> du], and otherwise can only end with an exception of the
    eigenvalue routine, called on a [(dx, dx)] matrix; when it returns,
    [dy = du], the warmup is 100 steps, [W_in] and [W_out] are the draws
    and the state is the drawn vector. *)
Theorem X19_constructor_outcome (dx dy du : nat) (rnd : draws) :
  draws_ok dx dy du rnd = true ->
  match __init__ max_abs_eigvals dx dy du rnd with
  | Val w0 =>
      dy = du /\ warmup (self w0) = 100 /\
      weight_in (self w0) = draw_in rnd /\
      weight_out (self w0) = draw_out rnd /\
      current w0 = draw_internal rnd
  | Exc e =>
      (dy <> du /\ e = ValueError) \/
      (dy = du /\ exists m, has_shape dx dx m = true /\
                            max_abs_eigvals m = Exc e)
  end.
Proof.
  intros Hd. unfold draws_ok in Hd.
  apply andb_prop in Hd. destruct Hd as [Hd _].
  apply andb_prop in Hd. destruct Hd as [Hd Hmask].
  apply andb_prop in Hd. destruct Hd as [_ Hw].
  unfold __init__. cbv zeta.
  destruct (Nat.eqb_spec dy du) as [Heq|Hne]; cbn [negb]; [|left; auto].
  destruct (imultiply_matrices dx (draw_weight rnd)
              (less_than 1%float (draw_mask rnd)) Hw
              (has_shape_amap _ _ _ _ Hmask))
    as (rows & -> & Hrows).
  cbn [rbind]. destruct (max_abs_eigvals _) as [rho|e] eqn:E; cbn [rbind].
  - repeat split; assumption.
  - right. split; [assumption|]. exists (A2 dx rows). auto.
Qed.

End ConstructorOutcome.

(** * The extra theorems on concrete runs *)

(** The reference inverse gives back a square array of the size of its
    argument. *)
Lemma ref_inv_square (d : nat) (g G : ndarray) :
  is_square d g = true -> Ref.inv g = Val G -> is_square d G = true.
Proof.
  destruct g as [|?|n rows]; try discriminate. cbn [is_square].
  intros H. apply andb_prop in H. destruct H as [Hn Hr].
  apply Nat.eqb_eq in Hn, Hr. subst n. unfold Ref.inv.
  rewrite Hr, Nat.eqb_refl. unfold eye.
  destruct (Ref.gauss_jordan _ _) as [m|]; cbn [rbind]; [|discriminate].
  destruct (length (map (skipn d) m) =? d) eqn:E; [|discriminate].
  intros [= <-]. cbn [is_square]. rewrite Nat.eqb_refl, E. reflexivity.
Qed.


(** [training_set(10)]. *)
Lemma X3_ten_samples :
  training_set Ref.pow_int (fun y _ _ => Val (A1 y)) 1 10 = Exc IndexError.
Proof.
  apply (X3_training_set_needs_23_samples Ref.pow_int
           (fun y _ _ => Val (A1 y)) 1 10); lia.
Defined.

(** [Reservoir(3, 2, 2).training_testing(10, 15)]. *)
Lemma X9_two_input_units :
  training_testing Ref.softsign Ref.inv Ref.series 10 15 Ref.two_inputs =
  Raise ValueError
        (mkWorld (with_input (self Ref.two_inputs) (A1 [0.5%float]))
                 (heap Ref.two_inputs)).
Proof.
  apply (X9_several_input_units_raise Ref.softsign Ref.inv Ref.series 10 15
           Ref.two_inputs 2 (repeat [0.25%float; 0.25%float] 3)).
  - reflexivity.
  - discriminate.
  - simpl. lia.
  - lia.
  - simpl. lia.
Defined.

(** Two recorded states and one target. *)
Lemma X10_two_states_one_target :
  update Ref.inv [1; 2] (map A1 [[0.5%float]]) Ref.traced =
  Raise ValueError Ref.traced.
Proof.
  apply (X10_update_sample_counts_differ Ref.inv Ref.traced [1; 2]
           [[1%float; 0.25%float]; [1%float; 0.75%float]] [[0.5%float]] 1).
  - simpl. lia.
  - simpl. lia.
  - simpl. lia.
  - repeat constructor.
  - repeat constructor.
  - reflexivity.
Defined.

(** Two recorded states and two targets, with the reference inverse. *)
Lemma X11_two_states_two_targets :
  match update Ref.inv [1; 2] (map A1 [[0.5%float]; [0.25%float]]) Ref.traced
  with
  | Ok W w' => w' = Ref.traced /\ has_shape 1 2 W = true
  | Raise e w' =>
      w' = Ref.traced /\ exists g, is_square 2 g = true /\ Ref.inv g = Exc e
  end.
Proof.
  apply (X11_update_shape_or_inversion_error Ref.inv Ref.traced [1; 2]
           [[1%float; 0.25%float]; [1%float; 0.75%float]]
           [[0.5%float]; [0.25%float]] 1).
  - apply ref_inv_square.
  - simpl. lia.
  - reflexivity.
  - repeat constructor.
  - repeat constructor.
  - reflexivity.
Defined.

(** The targets of the small instance trained on ten samples. *)
Lemma X12_ten_training_samples :
  exists rs ins w',
    train_phase Ref.softsign (column_of Ref.series) 10 Ref.small
    = Ok (rs, ins) w' /\
    ins = map (fun i => A1 [nth i Ref.series 0%float]) (seq 2 7) /\
    input (self w') = A1 [nth 9 Ref.series 0%float].
Proof.
  destruct (train_phase Ref.softsign (column_of Ref.series) 10 Ref.small)
    as [[rs ins] w'|e w'] eqn:E.
  - exists rs, ins, w'. split; [reflexivity|].
    exact (X12_targets_are_current_inputs Ref.softsign Ref.series 10 rs ins
             Ref.small w' E).
  - vm_compute in E. discriminate E.
Defined.


(** The store after [training_testing(10, 15)] on the small instance:
    fifteen cells. *)
Lemma X14_small_call_store :
  exists signal prediction w',
    training_testing Ref.softsign Ref.inv Ref.series 10 15 Ref.small
    = Ok (signal, prediction) w' /\
    internal (self w') + 1 = length (heap w').
Proof.
  destruct (training_testing Ref.softsign Ref.inv Ref.series 10 15 Ref.small)
    as [[signal prediction] w'|e w'] eqn:E.
  - exists signal, prediction, w'. split; [reflexivity|].
    destruct (X14_return_installs_fit_and_continues Ref.softsign Ref.inv
                Ref.series 10 15 signal prediction Ref.small w' E)
      as (rs & ins & v & W & ext & _ & _ & _ & _ & _ & _ & H).
    exact H.
  - vm_compute in E. discriminate E.
Defined.

(** Sixteen samples and [n1 = 20]. *)
Lemma X15_sixteen_samples_twenty_asked :
  exists w',
    training_testing Ref.softsign Ref.inv Ref.series 20 25 Ref.small
    = Raise IndexError w' /\
    weight_out (self w') = weight_out (self Ref.small) /\
    length (heap w') = length (heap Ref.small) + length Ref.series.
Proof.
  apply (X15_series_shorter_than_training Ref.softsign Ref.inv Ref.series
           20 25 Ref.small).
  - reflexivity.
  - simpl. lia.
  - simpl. lia.
Defined.

(** Sixteen samples, [n1 = 10] and [n2 = 20]. *)
Lemma X16_sixteen_samples_test_to_twenty :
  exists w' rs ins v,
    training_testing Ref.softsign Ref.inv Ref.series 10 20 Ref.small
    = Raise IndexError w' /\
    train_phase Ref.softsign (column_of (firstn 10 Ref.series)) 10 Ref.small
    = Ok (rs, ins) v /\
    update Ref.inv rs ins v = Ok (weight_out (self w')) v.
Proof.
  destruct (train_phase Ref.softsign (column_of (firstn 10 Ref.series)) 10
              Ref.small) as [[rs ins] v|e v] eqn:Et;
    [|vm_compute in Et; discriminate Et].
  assert (Hn : warmup (self Ref.small) + 2 <= 10) by (simpl; lia).
  destruct (fit_after_training Ref.softsign Ref.inv _ _ _ _ _ _
              (eq_refl : shapes_ok Ref.small = true) (ref_inv_square _) Hn Et)
    as [(W & Hu & HW) | (e & g & Hu & _)].
  - destruct (X16_series_shorter_than_test_keeps_fit Ref.softsign Ref.inv
                Ref.series 10 20 rs ins W Ref.small v eq_refl)
      as (w' & Hr & Hw'); try assumption; try (simpl; lia).
    exists w', rs, ins, v. rewrite Hw'. repeat split; assumption.
  - exfalso. vm_compute in Et. injection Et as <- <- <-.
    vm_compute in Hu. discriminate Hu.
Defined.

(** The call [training_testing(10, 15)] on the small instance, with the
    reference inverse. *)
Lemma X17_small_call_outcome :
  match training_testing Ref.softsign Ref.inv Ref.series 10 15 Ref.small with
  | Ok (signal, prediction) w' =>
      length signal = 5 /\ length prediction = 5 /\
      has_shape 1 3 (weight_out (self w')) = true
  | Raise e w' =>
      (exists g, is_square 3 g = true /\ Ref.inv g = Exc e) /\
      weight_out (self w') = weight_out (self Ref.small)
  end.
Proof.
  apply (X17_only_the_inversion_can_fail Ref.softsign Ref.inv Ref.series
           10 15 Ref.small).
  - reflexivity.
  - apply ref_inv_square.
  - simpl. lia.
  - lia.
  - simpl. lia.
Defined.

(** [Reservoir(3, 1, 1)] trained on ten samples: nothing is recorded. *)
Lemma X18_new_instance_ten_samples :
  exists rs ins v,
    train_phase Ref.softsign (column_of (firstn 10 Ref.series)) 10 (Ref.esn 3)
    = Ok (rs, ins) v /\
    length rs = 0 /\ length ins = 0 /\
    weight_out (self v) = draw_out (Ref.some_draws 3).
Proof.
  apply (X18_new_instance_completes_training Ref.softsign Ref.max_abs_diag
           3 (Ref.some_draws 3) (Ref.esn 3) Ref.series 10).
  - lia.
  - reflexivity.
  - reflexivity.
  - lia.
  - simpl. lia.
Defined.

(** The constructor on the draws [Ref.some_draws 3]. *)
Lemma X19_some_draws :
  match __init__ Ref.max_abs_diag 3 1 1 (Ref.some_draws 3) with
  | Val w0 =>
      1 = 1 /\ warmup (self w0) = 100 /\
      weight_in (self w0) = draw_in (Ref.some_draws 3) /\
      weight_out (self w0) = draw_out (Ref.some_draws 3) /\
      current w0 = draw_internal (Ref.some_draws 3)
  | Exc e =>
      (1 <> 1 /\ e = ValueError) \/
      (1 = 1 /\ exists m, has_shape 3 3 m = true /\
                          Ref.max_abs_diag m = Exc e)
  end.
Proof.
  apply (X19_constructor_outcome Ref.max_abs_diag 3 1 1 (Ref.some_draws 3)).
  reflexivity.
Defined.
